(** * Padded gather / scatter of megablocks ([megablocks/backend/kernels.py])

    A shallow embedding of the Triton kernel [_padded_copy] and of its two
    host entry points [padded_gather] and [padded_scatter], followed by the
    properties of the permutation they implement.

    Modelling decisions, all visible in the definitions below:
    - device memory is a list of blocks, one per tensor storage; a pointer
      is a block together with a signed cell offset, and pointer arithmetic
      only moves the offset;
    - a cell is the bit pattern of one tensor element, or [Undef] for memory
      that was allocated by [torch.empty] and not written yet (the copy does
      no arithmetic on elements, so one cell type serves every dtype);
    - an access outside its block has no defined behaviour: the run stops
      with the outcome [Fault];
    - Python exceptions are the outcome [Raise];
    - tensors are contiguous, row-major, with storage offset 0;
    - integer arithmetic of the kernel is done on [Z] (the element width of
      the index tensors is not fixed by the source);
    - the program instances of a launch grid run one after the other, in
      increasing order of [tl.program_id(0)];
    - the autotuner is reduced to its result, the block width [BLOCK_X]. *)

From stdpp Require Import base numbers list list_numbers sorting.
From Stdlib Require Import ZArith Lia.

Local Open Scope Z_scope.

(** ** Memory *)

Inductive cell :=
  | Undef
  | Val (z : Z).

Abbreviation block := (list cell).

Record ptr := Ptr { blk : nat; off : Z }.

(** [p + z] on a pointer. *)
Definition padd (p : ptr) (z : Z) : ptr := Ptr (blk p) (off p + z).

Infix "+ₚ" := padd (at level 50, left associativity).

Inductive event :=
  | Alloc (b : nat) (n : nat)
  | Launch (pid : nat)
  | Rd (p : ptr)
  | Wr (p : ptr).

(** The log is kept most recent event first. *)
Record world := World { mem : list block; log : list event }.

Inductive exn := ValueError | IndexError | RuntimeError.

Inductive outcome (A : Type) :=
  | Ok (a : A)
  | Raise (e : exn)
  | Fault (p : ptr).
Arguments Ok {A} a.
Arguments Raise {A} e.
Arguments Fault {A} p.

(** ** The monad of the embedding: state, log and failure *)

Definition M (A : Type) : Type := world → outcome A * world.

Definition ret {A} (a : A) : M A := λ w, (Ok a, w).

Definition bind {A B} (m : M A) (k : A → M B) : M B :=
  λ w, match m w with
       | (Ok a, w') => k a w'
       | (Raise e, w') => (Raise e, w')
       | (Fault p, w') => (Fault p, w')
       end.

Definition raise {A} (e : exn) : M A := λ w, (Raise e, w).

Definition fault {A} (p : ptr) : M A := λ w, (Fault p, w).

Definition emit (e : event) : M unit :=
  λ w, (Ok tt, World (mem w) (e :: log w)).

Notation "'do' x <- m ; k" := (bind m (λ x, k))
  (at level 10, x name, m at level 100, k at level 200,
   format "'[v' 'do'  x  <-  m ; '/' k ']'").
Notation "m ;; k" := (bind m (λ _, k))
  (at level 100, k at level 200, right associativity).

(** Is offset [z] inside a block of [n] cells? *)
Definition in_bounds (z : Z) (n : nat) : bool :=
  bool_decide (0 ≤ z < Z.of_nat n).

(** [tl.load(p)] of one element. *)
Definition tl_load (p : ptr) : M cell :=
  λ w, match mem w !! blk p with
       | Some bl =>
           if in_bounds (off p) (length bl) then
             match bl !! Z.to_nat (off p) with
             | Some c => (Ok c, World (mem w) (Rd p :: log w))
             | None => (Fault p, w)
             end
           else (Fault p, w)
       | None => (Fault p, w)
       end.

(** [tl.store(p, c)] of one element. *)
Definition tl_store (p : ptr) (c : cell) : M unit :=
  λ w, match mem w !! blk p with
       | Some bl =>
           if in_bounds (off p) (length bl) then
             (Ok tt,
              World (<[blk p := <[Z.to_nat (off p) := c]> bl]> (mem w))
                    (Wr p :: log w))
           else (Fault p, w)
       | None => (Fault p, w)
       end.

(** A loaded element used as an integer. *)
Definition as_int (p : ptr) (c : cell) : M Z :=
  match c with
  | Val z => ret z
  | Undef => fault p
  end.

Definition load_int (p : ptr) : M Z :=
  do c <- tl_load p; as_int p c.

(** [tl.load(p + offsets, mask=mask)]: lanes whose mask is off touch no
    memory and carry an undefined value. *)
Fixpoint tl_load_v (p : ptr) (offsets : list Z) (mask : list bool)
  : M (list cell) :=
  match offsets, mask with
  | o :: os, m :: ms =>
      do x <- (if m then tl_load (p +ₚ o) else ret Undef);
      do xs <- tl_load_v p os ms;
      ret (x :: xs)
  | _, _ => ret []
  end.

(** [tl.store(p + offsets, x, mask=mask)]. *)
Fixpoint tl_store_v (p : ptr) (offsets : list Z) (x : list cell)
    (mask : list bool) : M unit :=
  match offsets, x, mask with
  | o :: os, v :: vs, m :: ms =>
      (if m then tl_store (p +ₚ o) v else ret tt);;
      tl_store_v p os vs ms
  | _, _, _ => ret tt
  end.

(** ** Tensors *)

Record tensor := Tensor { storage : nat; shape : list nat }.

Definition ndim (x : tensor) : nat := length (shape x).

(** [x.shape[i]] *)
Definition dim (x : tensor) (i : nat) : nat := nth i (shape x) 0%nat.

Definition numel (sh : list nat) : nat := foldr Nat.mul 1%nat sh.

Definition data_ptr (x : tensor) : ptr := Ptr (storage x) 0.

(** [torch.zeros] / [torch.empty] of a matrix: a new block at the end of
    the memory, filled with [c]. *)
Definition alloc_matrix (c : cell) (rows cols : nat) : M tensor :=
  λ w, let b := length (mem w) in
       (Ok (Tensor b [rows; cols]),
        World (mem w ++ [replicate (rows * cols) c])
              (Alloc b (rows * cols) :: log w)).

Definition torch_zeros (rows : Z) (cols : nat) : M tensor :=
  if bool_decide (rows < 0) then raise RuntimeError
  else alloc_matrix (Val 0) (Z.to_nat rows) cols.

Definition torch_empty (rows cols : nat) : M tensor :=
  alloc_matrix Undef rows cols.

(** [v[-1].cpu().item()] of a vector. *)
Definition item_last (v : tensor) : M Z :=
  match dim v 0 with
  | O => raise IndexError
  | S n => load_int (data_ptr v +ₚ Z.of_nat n)
  end.

(** ** The source, function by function *)

Definition assert_is_matrix (x : tensor) : M unit :=
  if bool_decide (ndim x ≠ 2%nat) then raise ValueError else ret tt.

Definition assert_is_vector (x : tensor) : M unit :=
  if bool_decide (ndim x ≠ 1%nat) then raise ValueError else ret tt.

Definition assert_equal {A} `{EqDecision A} (a b : A) : M unit :=
  if bool_decide (a ≠ b) then raise ValueError else ret tt.

Definition tl_arange (lo hi : Z) : list Z := seqZ lo (hi - lo).

Definition tl_cdiv (x d : Z) : Z := (x + d - 1) `div` d.

(** Lines 56-68 of the kernel: the loop over the chunks of one row;
    [n] is the number of iterations, [offsets] the loop-carried lanes. *)
Fixpoint copy_loop (n : nat) (iptr optr : ptr) (num_columns BLOCK_X : Z)
    (offsets : list Z) : M unit :=
  match n with
  | O => ret tt
  | S n' =>
      let mask := (λ o, bool_decide (o < num_columns)) <$> offsets in
      do x <- tl_load_v iptr offsets mask;
      tl_store_v optr offsets x mask;;
      copy_loop n' iptr optr num_columns BLOCK_X
        ((λ o, o + BLOCK_X) <$> offsets)
  end.

(** Lines 35-51 of the kernel: the row of this program instance in array
    [a] and in array [b]. *)
Definition task_rows (indices bin_ids bins padded_bins : ptr)
    (program_id : Z) : M (Z * Z) :=
  do index_a <- load_int (indices +ₚ program_id);
  do bin_idx <- load_int (bin_ids +ₚ program_id);
  do offset_in_bin <-
    (if bool_decide (bin_idx > 0)
     then do v <- load_int (bins +ₚ bin_idx +ₚ (-1)); ret (program_id - v)
     else ret program_id);
  do index_b <-
    (if bool_decide (bin_idx > 0)
     then do v <- load_int (padded_bins +ₚ bin_idx +ₚ (-1));
          ret (offset_in_bin + v)
     else ret offset_in_bin);
  ret (index_a, index_b).

Definition _padded_copy (a b : ptr) (num_columns : Z)
    (indices bin_ids bins padded_bins : ptr)
    (BLOCK_X : Z) (A_TO_B : bool) (program_id : Z) : M unit :=
  do rows <- task_rows indices bin_ids bins padded_bins program_id;
  let '(index_a, index_b) := rows in
  let a := a +ₚ index_a * num_columns in
  let b := b +ₚ index_b * num_columns in
  let offsets := tl_arange 0 BLOCK_X in
  let iptr := if A_TO_B then a else b in
  let optr := if A_TO_B then b else a in
  copy_loop (Z.to_nat (tl_cdiv num_columns BLOCK_X)) iptr optr
    num_columns BLOCK_X offsets.

(** [kernel[(grid,)](...)]: instances [pid], [pid+1], ... ([n] of them). *)
Fixpoint launch (kernel : Z → M unit) (pid n : nat) : M unit :=
  match n with
  | O => ret tt
  | S n' =>
      emit (Launch pid);;
      kernel (Z.of_nat pid);;
      launch kernel (S pid) n'
  end.

Definition padded_gather (BLOCK_X : Z)
    (x indices bin_ids bins padded_bins : tensor) : M tensor :=
  assert_is_matrix x;;
  assert_is_vector indices;;
  assert_is_vector bin_ids;;
  assert_is_vector bins;;
  assert_is_vector padded_bins;;
  assert_equal (dim indices 0) (dim x 0);;
  assert_equal (dim bin_ids 0) (dim x 0);;
  assert_equal (shape bins) (shape padded_bins);;
  do output_rows <- item_last padded_bins;
  do out <- torch_zeros output_rows (dim x 1);
  launch (_padded_copy (data_ptr x) (data_ptr out) (Z.of_nat (dim x 1))
            (data_ptr indices) (data_ptr bin_ids) (data_ptr bins)
            (data_ptr padded_bins) BLOCK_X true)
         0 (dim x 0);;
  ret out.

Definition padded_scatter (BLOCK_X : Z)
    (x indices bin_ids bins padded_bins : tensor) : M tensor :=
  assert_is_matrix x;;
  assert_is_vector indices;;
  assert_is_vector bin_ids;;
  assert_is_vector bins;;
  assert_is_vector padded_bins;;
  assert_equal (dim indices 0) (dim bin_ids 0);;
  assert_equal (shape bins) (shape padded_bins);;
  do out <- torch_empty (dim indices 0) (dim x 1);
  launch (_padded_copy (data_ptr out) (data_ptr x) (Z.of_nat (dim x 1))
            (data_ptr indices) (data_ptr bin_ids) (data_ptr bins)
            (data_ptr padded_bins) BLOCK_X false)
         0 (dim out 0);;
  ret out.

(** ** Scenario 1 and 2 of the specification, as inputs of the model *)

Definition vals (l : list Z) : block := Val <$> l.

Definition scenario_mem : list block :=
  [ vals [1;1; 2;2; 3;3; 4;4];   (* x, 4 x 2 *)
    vals [0; 1; 2; 3];           (* indices *)
    vals [0; 0; 1; 1];           (* bin_ids *)
    vals [2; 4];                 (* bins *)
    vals [3; 5] ].               (* padded_bins *)

Definition scenario_x := Tensor 0 [4; 2]%nat.
Definition scenario_indices := Tensor 1 [4]%nat.
Definition scenario_bin_ids := Tensor 2 [4]%nat.
Definition scenario_bins := Tensor 3 [2]%nat.
Definition scenario_padded_bins := Tensor 4 [2]%nat.

(** An empty input: no task, one group with two padded rows. *)
Definition empty_mem : list block := [ []; []; []; vals [0]; vals [2] ].




(** No group at all: [bins] and [padded_bins] are empty. *)
Definition no_group_mem : list block := [ []; []; []; []; [] ].





(** ** Reference definitions, from the specification

    What follows is not code of the repository: it is the vocabulary of
    the specification, against which the code above is compared. *)

(** A direct copy of [h] consecutive cells of [src], from offset [i], over
    the cells of [dst] from offset [o]. *)
Definition copy_row (src dst : block) (i o : nat) (h : nat) : block :=
  take o dst ++ take h (drop i src) ++ drop (o + h) dst.


(** [l[i]], with 0 out of range. *)
Definition zget (l : list Z) (i : Z) : Z := default 0 (l !! Z.to_nat i).

(** [l[k-1] if k > 0 else 0] *)
Definition prev (l : list Z) (k : Z) : Z :=
  if bool_decide (k > 0) then zget l (k - 1) else 0.

(** The padded row of task [i]. *)
Definition b_row (bin_ids bins padded_bins : list Z) (i : nat) : Z :=
  let k := zget bin_ids (Z.of_nat i) in
  (Z.of_nat i - prev bins k) + prev padded_bins k.

(** Number of tasks whose bin id is at most [k]. *)
Definition count_le (bin_ids : list Z) (k : Z) : Z :=
  Z.of_nat (length (filter (λ b, b ≤ k) bin_ids)).

(** Size of group [k] according to the cumulative bounds [l]. *)
Definition group_size (l : list Z) (k : Z) : Z := zget l k - prev l k.

(** The validity invariants of the specification on the four metadata
    sequences, for [T] tasks and [length bins] groups. *)
Record valid_meta (T : nat) (indices bin_ids bins padded_bins : list Z)
  : Prop := ValidMeta {
  vm_indices : indices ≡ₚ seqZ 0 (Z.of_nat T);
  vm_bin_ids : length bin_ids = T;
  vm_groups : (0 < length bins)%nat;
  vm_padded : length padded_bins = length bins;
  vm_sorted : Sorted Z.le bin_ids;
  vm_range : Forall (λ k, 0 ≤ k < Z.of_nat (length bins)) bin_ids;
  vm_bins : ∀ k, 0 ≤ k < Z.of_nat (length bins) →
            zget bins k = count_le bin_ids k;
  vm_capacity : ∀ k, 0 ≤ k < Z.of_nat (length bins) →
                group_size bins k ≤ group_size padded_bins k
}.

(** Row [r] of the padded buffer holds a real row of some group. *)
Definition real_row (bins padded_bins : list Z) (r : Z) : Prop :=
  ∃ k, 0 ≤ k < Z.of_nat (length bins) ∧
       prev padded_bins k ≤ r < prev padded_bins k + group_size bins k.


(** Source and destination row of task [i], by direction of the copy. *)
Definition src_row (A_TO_B : bool) (indices bin_ids bins padded_bins : list Z)
    (i : nat) : Z :=
  if A_TO_B then zget indices (Z.of_nat i)
  else b_row bin_ids bins padded_bins i.

Definition dst_row (A_TO_B : bool) (indices bin_ids bins padded_bins : list Z)
    (i : nat) : Z :=
  if A_TO_B then b_row bin_ids bins padded_bins i
  else zget indices (Z.of_nat i).

(** The effect on the destination block of the whole-row copies of the
    tasks [tasks], one after the other. *)
Definition copy_rows (h : nat) (src : block) (srow drow : nat → Z)
    (dst : block) (tasks : list nat) : block :=
  foldl (λ d i, copy_row src d (Z.to_nat (srow i * Z.of_nat h))
                  (Z.to_nat (drow i * Z.of_nat h)) h)
        dst tasks.

(** Task [i] finds its metadata, and its two rows lie inside array [a]
    (of [la] cells) and array [b] (of [lb] cells). *)
Definition task_in_range (h : nat) (indices bin_ids bins padded_bins : list Z)
    (la lb : nat) (i : nat) : Prop :=
  (i < length indices)%nat ∧ (i < length bin_ids)%nat ∧
  zget bin_ids (Z.of_nat i) ≤ Z.of_nat (length bins) ∧
  zget bin_ids (Z.of_nat i) ≤ Z.of_nat (length padded_bins) ∧
  0 ≤ zget indices (Z.of_nat i) ∧
  (zget indices (Z.of_nat i) + 1) * Z.of_nat h ≤ Z.of_nat la ∧
  0 ≤ b_row bin_ids bins padded_bins i ∧
  (b_row bin_ids bins padded_bins i + 1) * Z.of_nat h ≤ Z.of_nat lb.

(** Block of the source and of the destination, by direction. *)
Definition src_blk (A_TO_B : bool) (xa xb : nat) : nat :=
  if A_TO_B then xa else xb.

Definition dst_blk (A_TO_B : bool) (xa xb : nat) : nat :=
  if A_TO_B then xb else xa.

(** The memory holds the four metadata vectors (blocks [ti], [tb], [tn],
    [tp]), the source [S] of the copy and its destination [D]. *)
Definition mem_inv (m : list block) (ti tb tn tp src dst : nat)
    (indices bin_ids bins padded_bins : list Z) (S D : block) : Prop :=
  m !! ti = Some (vals indices) ∧ m !! tb = Some (vals bin_ids) ∧
  m !! tn = Some (vals bins) ∧ m !! tp = Some (vals padded_bins) ∧
  m !! src = Some S ∧ m !! dst = Some D.

(** The rows read and written by the tasks [tasks] lie inside the source
    block and the destination block. *)
Definition rows_in (h : nat) (src : block) (srow drow : nat → Z)
    (dst : block) (tasks : list nat) : Prop :=
  ∀ i, i ∈ tasks →
    0 ≤ srow i ∧ (srow i + 1) * Z.of_nat h ≤ Z.of_nat (length src) ∧
    0 ≤ drow i ∧ (drow i + 1) * Z.of_nat h ≤ Z.of_nat (length dst).

(** The five arguments of a call as tensors of the memory [m]: a matrix
    of [rows] rows and [h] columns with contents [X], and four vectors with
    contents [idx], [bid], [bs] and [pbs]. *)
Record args_ok (m : list block) (x indices bin_ids bins padded_bins : tensor)
    (rows h : nat) (X : block) (idx bid bs pbs : list Z) : Prop := ArgsOk {
  ao_x_shape : shape x = [rows; h];
  ao_x : m !! storage x = Some X;
  ao_x_length : length X = (rows * h)%nat;
  ao_indices_shape : shape indices = [length idx];
  ao_indices : m !! storage indices = Some (vals idx);
  ao_bin_ids_shape : shape bin_ids = [length bid];
  ao_bin_ids : m !! storage bin_ids = Some (vals bid);
  ao_bins_shape : shape bins = [length bs];
  ao_bins : m !! storage bins = Some (vals bs);
  ao_padded_bins_shape : shape padded_bins = [length pbs];
  ao_padded_bins : m !! storage padded_bins = Some (vals pbs)
}.

(** [padded_bins[-1]], the number of rows of the padded buffer. *)
Definition padded_rows (padded_bins : list Z) : Z :=
  zget padded_bins (Z.of_nat (length padded_bins) - 1).







(** The only exceptions [m] can raise are those of [P]. *)
Definition raises_only {A} (P : exn → Prop) (m : M A) : Prop :=
  ∀ w e w', m w = (Raise e, w') → P e.

(** The shape conditions checked by the two entry points. *)
Definition shapes_ok_gather (x indices bin_ids bins padded_bins : tensor)
  : Prop :=
  ndim x = 2%nat ∧ ndim indices = 1%nat ∧ ndim bin_ids = 1%nat ∧
  ndim bins = 1%nat ∧ ndim padded_bins = 1%nat ∧
  dim indices 0 = dim x 0 ∧ dim bin_ids 0 = dim x 0 ∧
  dim bins 0 = dim padded_bins 0.

Definition shapes_ok_scatter (x indices bin_ids bins padded_bins : tensor)
  : Prop :=
  ndim x = 2%nat ∧ ndim indices = 1%nat ∧ ndim bin_ids = 1%nat ∧
  ndim bins = 1%nat ∧ ndim padded_bins = 1%nat ∧
  dim indices 0 = dim bin_ids 0 ∧
  dim bins 0 = dim padded_bins 0.

(** The block that [padded_gather] builds from the unpadded contents [M],
    and the block that [padded_scatter] builds from the padded contents
    [X], as sequences of whole-row copies (see [padded_gather_run] and
    [padded_scatter_run] below). *)
Definition gather_block (h : nat) (M : block) (idx bid bs pbs : list Z)
  : block :=
  copy_rows h M (src_row true idx bid bs pbs) (dst_row true idx bid bs pbs)
    (replicate (Z.to_nat (padded_rows pbs) * h) (Val 0))
    (seq 0 (length idx)).

Definition scatter_block (h : nat) (X : block) (idx bid bs pbs : list Z)
  : block :=
  copy_rows h X (src_row false idx bid bs pbs) (dst_row false idx bid bs pbs)
    (replicate (length idx * h) Undef)
    (seq 0 (length idx)).

(** ** Running the monad *)

Lemma bind_run {A B} (m : M A) (k : A → M B) w a w1 :
  m w = (Ok a, w1) → bind m k w = k a w1.
Proof. intros E. unfold bind. by rewrite E. Qed.

Lemma tl_load_run p w bl c :
  mem w !! blk p = Some bl → 0 ≤ off p → bl !! Z.to_nat (off p) = Some c →
  tl_load p w = (Ok c, World (mem w) (Rd p :: log w)).
Proof.
  intros Hb H0 Hc. unfold tl_load, in_bounds. cbv beta. rewrite Hb.
  apply lookup_lt_Some in Hc as Hlt.
  rewrite bool_decide_eq_true_2 by lia. by rewrite Hc.
Qed.

Lemma tl_store_run p c w bl :
  mem w !! blk p = Some bl → 0 ≤ off p < Z.of_nat (length bl) →
  tl_store p c w =
    (Ok tt, World (<[blk p := <[Z.to_nat (off p) := c]> bl]> (mem w))
                  (Wr p :: log w)).
Proof.
  intros Hb H0. unfold tl_store, in_bounds. cbv beta. rewrite Hb.
  by rewrite bool_decide_eq_true_2 by lia.
Qed.

Example scenario_gather :
  let '(r, w) := padded_gather 64 scenario_x scenario_indices
                   scenario_bin_ids scenario_bins scenario_padded_bins
                   (World scenario_mem []) in
  r = Ok (Tensor 5 [5; 2]%nat) ∧
  mem w !! 5%nat = Some (vals [1;1; 2;2; 0;0; 3;3; 4;4]).
Proof. vm_compute. done. Qed.

(** Scenario 2: scatter of the five padded rows gives the four rows back;
    with indices [2; 0; 3; 1] the same run also undoes a real permutation. *)
Example scenario_scatter :
  let '(r1, w1) := padded_gather 64 scenario_x scenario_indices
                     scenario_bin_ids scenario_bins scenario_padded_bins
                     (World scenario_mem []) in
  let '(r2, w2) := padded_scatter 64 (Tensor 5 [5; 2]%nat) scenario_indices
                     scenario_bin_ids scenario_bins scenario_padded_bins w1 in
  r2 = Ok (Tensor 6 [4; 2]%nat) ∧
  mem w2 !! 6%nat = Some (vals [1;1; 2;2; 3;3; 4;4]).
Proof. vm_compute. done. Qed.

Example permuted_gather :
  let m := <[1%nat := vals [2; 0; 3; 1]]> scenario_mem in
  let '(r, w) := padded_gather 128 scenario_x scenario_indices
                   scenario_bin_ids scenario_bins scenario_padded_bins
                   (World m []) in
  r = Ok (Tensor 5 [5; 2]%nat) ∧
  mem w !! 5%nat = Some (vals [3;3; 1;1; 0;0; 4;4; 2;2]).
Proof. vm_compute. done. Qed.

Lemma load_int_run p w l z :
  mem w !! blk p = Some (vals l) → 0 ≤ off p →
  l !! Z.to_nat (off p) = Some z →
  load_int p w = (Ok z, World (mem w) (Rd p :: log w)).
Proof.
  intros Hb H0 Hz. unfold load_int.
  erewrite bind_run.
  2:{ eapply tl_load_run; eauto. unfold vals. rewrite list_lookup_fmap, Hz. done. }
  done.
Qed.
Lemma tl_load_v_run p S h offsets w :
  mem w !! blk p = Some S →
  (∀ o, o ∈ offsets → o < h → 0 ≤ off p + o < Z.of_nat (length S)) →
  ∃ lg,
    tl_load_v p offsets ((λ o, bool_decide (o < h)) <$> offsets) w =
      (Ok ((λ o, if bool_decide (o < h)
                 then default Undef (S !! Z.to_nat (off p + o))
                 else Undef) <$> offsets),
       World (mem w) (lg ++ log w)) ∧
    Forall (λ e, ∃ o, o ∈ offsets ∧ o < h ∧ e = Rd (p +ₚ o)) lg.
Proof.
  revert w. induction offsets as [|o os IH]; intros w Hb Hin.
  - exists []. split; [by destruct w|constructor].
  - cbn [tl_load_v fmap list_fmap].
    assert (Hos : ∀ o', o' ∈ os → o' < h →
                  0 ≤ off p + o' < Z.of_nat (length S)).
    { intros o' ? ?. apply Hin; [by right|done]. }
    case_bool_decide as Ho.
    + destruct (Hin o) as [Hlo Hhi]; [by left|done|].
      destruct (lookup_lt_is_Some_2 S (Z.to_nat (off p + o))) as [c Hc];
        [lia|].
      erewrite bind_run; [|eapply (tl_load_run (p +ₚ o)); eauto].
      set (w1 := World _ _).
      destruct (IH w1) as (lg & E & Hlg); [done|done|].
      exists (lg ++ [Rd (p +ₚ o)]). split.
      * cbv beta. erewrite bind_run; [|exact E].
        cbn. rewrite Hc. cbn. by rewrite <-app_assoc.
      * apply Forall_app. split.
        -- eapply Forall_impl; [done|]. intros e (o' & ? & ? & ->).
           exists o'. split_and!; [by right|done|done].
        -- constructor; [|constructor]. exists o. split_and!; [by left|done|done].
    + erewrite bind_run; [|reflexivity].
      destruct (IH w) as (lg & E & Hlg); [done|done|].
      exists lg. split; [cbv beta; erewrite bind_run; [|exact E]; done|].
      eapply Forall_impl; [done|]. intros e (o' & ? & ? & ->).
      exists o'. split_and!; [by right|done|done].
Qed.
Lemma tl_store_v_run p (g : Z → cell) h offsets : ∀ w D,
  mem w !! blk p = Some D →
  (∀ o, o ∈ offsets → o < h → 0 ≤ off p + o < Z.of_nat (length D)) →
  ∃ D' lg,
    tl_store_v p offsets (g <$> offsets)
      ((λ o, bool_decide (o < h)) <$> offsets) w =
      (Ok tt, World (<[blk p := D']> (mem w)) (lg ++ log w)) ∧
    length D' = length D ∧
    (∀ o, o ∈ offsets → o < h →
          D' !! Z.to_nat (off p + o) = Some (g o)) ∧
    (∀ k : nat, (∀ o, o ∈ offsets → o < h → Z.of_nat k ≠ off p + o) →
                D' !! k = D !! k) ∧
    Forall (λ e, ∃ o, o ∈ offsets ∧ o < h ∧ e = Wr (p +ₚ o)) lg.
Proof.
  induction offsets as [|o os IH]; intros w D Hb Hin.
  - exists D, []. split_and!; try done.
    + cbn. unfold ret. destruct w as [m l]. cbn in *.
      by rewrite list_insert_id.
    + intros o Ho. by apply elem_of_nil in Ho.
  - cbn [tl_store_v fmap list_fmap].
    assert (Hos : ∀ D1 : block, length D1 = length D → ∀ o', o' ∈ os → o' < h →
                  0 ≤ off p + o' < Z.of_nat (length D1)).
    { intros D1 -> o' ? ?. apply Hin; [by right|done]. }
    case_bool_decide as Ho.
    + destruct (Hin o) as [Hlo Hhi]; [by left|done|].
      erewrite bind_run; [|eapply (tl_store_run (p +ₚ o)); eauto].
      cbn [padd blk off].
      set (D1 := <[Z.to_nat (off p + o) := g o]> D).
      set (w1 := World _ _).
      assert (HD1 : length D1 = length D) by apply length_insert.
      destruct (IH w1 D1) as (D' & lg & E & Hlen & Hset & Hframe & Hlg).
      { apply list_lookup_insert_eq. by eapply lookup_lt_Some. }
      { by apply Hos. }
      exists D', (lg ++ [Wr (p +ₚ o)]). split_and!.
      * rewrite E. subst w1. cbn. rewrite list_insert_insert_eq.
        by rewrite <-app_assoc.
      * congruence.
      * intros o' Ho' Hlt. destruct (decide (o' ∈ os)) as [|Hn]; [by apply Hset|].
        apply elem_of_cons in Ho' as [->|]; [|done].
        rewrite Hframe.
        -- apply list_lookup_insert_eq. lia.
        -- intros o'' ? ? ?. apply Hn.
           replace o with o'' by lia. done.
      * intros k Hk. rewrite Hframe.
        -- apply list_lookup_insert_ne. intros <-.
           apply (Hk o); [by left|done|lia].
        -- intros o' ? ?. apply Hk; [by right|done].
      * apply Forall_app. split.
        -- eapply Forall_impl; [done|]. intros e (o' & ? & ? & ->).
           exists o'. split_and!; [by right|done|done].
        -- constructor; [|constructor].
           exists o. split_and!; [by left|done|done].
    + erewrite bind_run; [|reflexivity].
      destruct (IH w D) as (D' & lg & E & Hlen & Hset & Hframe & Hlg);
        [done|by apply Hos|].
      exists D', lg. split_and!; try done.
      * intros o' Ho' Hlt. apply elem_of_cons in Ho' as [->|]; [lia|].
        by apply Hset.
      * intros k Hk. apply Hframe. intros o' ? ?. apply Hk; [by right|done].
      * eapply Forall_impl; [done|]. intros e (o' & ? & ? & ->).
        exists o'. split_and!; [by right|done|done].
Qed.
Lemma copy_loop_run iptr optr (S : block) h BX n : ∀ s w (D : block),
  blk iptr ≠ blk optr → 0 < BX → 0 ≤ s →
  mem w !! blk iptr = Some S → mem w !! blk optr = Some D →
  0 ≤ off iptr → off iptr + h ≤ Z.of_nat (length S) →
  0 ≤ off optr → off optr + h ≤ Z.of_nat (length D) →
  h ≤ s + Z.of_nat n * BX →
  ∃ D' lg,
    copy_loop n iptr optr h BX (seqZ s BX) w =
      (Ok tt, World (<[blk optr := D']> (mem w)) (lg ++ log w)) ∧
    length D' = length D ∧
    (∀ c, s ≤ c < h →
          D' !! Z.to_nat (off optr + c) = S !! Z.to_nat (off iptr + c)) ∧
    (∀ k : nat, ¬ (off optr + s ≤ Z.of_nat k < off optr + h) →
                D' !! k = D !! k) ∧
    Forall (λ e, ∃ c, 0 ≤ c < h ∧
                      (e = Rd (iptr +ₚ c) ∨ e = Wr (optr +ₚ c))) lg.
Proof.
  induction n as [|n IH]; intros s w D Hne HBX Hs HS HD Hi0 Hi1 Ho0 Ho1 Hn.
  - exists D, []. split_and!; try done.
    + cbn. unfold ret. destruct w as [m l]. cbn in *.
      by rewrite list_insert_id.
    + intros c ?. lia.
  - cbn [copy_loop].
    destruct (tl_load_v_run iptr S h (seqZ s BX) w) as (lg1 & E1 & Hlg1);
      [done| |].
    { intros o [? ?]%elem_of_seqZ ?. lia. }
    erewrite bind_run; [|exact E1]. clear E1.
    set (g := λ o : Z, if bool_decide (o < h)
                       then default Undef (S !! Z.to_nat (off iptr + o))
                       else Undef).
    set (w1 := World _ _).
    destruct (tl_store_v_run optr g h (seqZ s BX) w1 D)
      as (D1 & lg2 & E2 & Hlen1 & Hset1 & Hfr1 & Hlg2); [done| |].
    { intros o [? ?]%elem_of_seqZ ?. lia. }
    erewrite bind_run; [|exact E2]. clear E2.
    set (w2 := World _ _).
    replace ((λ o, o + BX) <$> seqZ s BX) with (seqZ (BX + s) BX).
    2:{ rewrite <-fmap_add_seqZ. apply list_fmap_ext. intros; lia. }
    assert (Hbo : (blk optr < length (mem w))%nat) by by eapply lookup_lt_Some.
    destruct (IH (BX + s) w2 D1)
      as (D' & lg3 & E3 & Hlen & Hset & Hfr & Hlg3); try done; try lia.
    { subst w2 w1. cbn. by rewrite list_lookup_insert_ne. }
    { subst w2 w1. cbn. by rewrite list_lookup_insert_eq. }
    exists D', (lg3 ++ lg2 ++ lg1). split_and!.
    + rewrite E3. subst w2 w1. cbn. rewrite list_insert_insert_eq.
      by rewrite <-!app_assoc.
    + congruence.
    + intros c Hc. destruct (decide (BX + s ≤ c)) as [|Hlt].
      * apply Hset. lia.
      * rewrite Hfr by lia. rewrite Hset1.
        -- subst g. cbn. rewrite bool_decide_eq_true_2 by lia.
           destruct (lookup_lt_is_Some_2 S (Z.to_nat (off iptr + c)))
             as [x ->]; [lia|done].
        -- apply elem_of_seqZ. lia.
        -- lia.
    + intros k Hk. rewrite Hfr by lia. apply Hfr1.
      intros o [? ?]%elem_of_seqZ ?. lia.
    + rewrite !Forall_app. split_and!.
      * done.
      * eapply Forall_impl; [done|]. intros e (o & [? ?]%elem_of_seqZ & ? & ->).
        exists o. split; [lia|by right].
      * eapply Forall_impl; [done|]. intros e (o & [? ?]%elem_of_seqZ & ? & ->).
        exists o. split; [lia|by left].
Qed.
Lemma copy_row_length (S D : block) (i o h : nat) :
  (i + h ≤ length S)%nat → (o + h ≤ length D)%nat →
  length (copy_row S D i o h) = length D.
Proof.
  intros. unfold copy_row.
  rewrite !length_app, !length_take, !length_drop. lia.
Qed.

Lemma copy_row_lookup_in (S D : block) (i o h c : nat) :
  (i + h ≤ length S)%nat → (o + h ≤ length D)%nat → (c < h)%nat →
  copy_row S D i o h !! (o + c)%nat = S !! (i + c)%nat.
Proof.
  intros. unfold copy_row.
  rewrite lookup_app_r by (rewrite length_take; lia).
  rewrite length_take, Nat.min_l by lia.
  rewrite lookup_app_l by (rewrite length_take, length_drop; lia).
  rewrite lookup_take_lt by lia. rewrite lookup_drop. f_equal. lia.
Qed.

Lemma copy_row_lookup_out (S D : block) (i o h k : nat) :
  (i + h ≤ length S)%nat → (o + h ≤ length D)%nat →
  ¬ (o ≤ k < o + h)%nat →
  copy_row S D i o h !! k = D !! k.
Proof.
  intros ? ? Hk. unfold copy_row.
  destruct (decide (k < o)%nat).
  - rewrite lookup_app_l by (rewrite length_take; lia).
    by rewrite lookup_take_lt.
  - rewrite lookup_app_r by (rewrite length_take; lia).
    rewrite length_take, Nat.min_l by lia.
    rewrite lookup_app_r by (rewrite length_take, length_drop; lia).
    rewrite length_take, length_drop, Nat.min_l by lia.
    rewrite lookup_drop. f_equal. lia.
Qed.

Lemma tl_cdiv_enough h BX : 0 < BX → h ≤ Z.of_nat (Z.to_nat (tl_cdiv h BX)) * BX.
Proof.
  intros. unfold tl_cdiv.
  pose proof (Z.div_mod (h + BX - 1) BX) as Hd.
  pose proof (Z.mod_pos_bound (h + BX - 1) BX).
  destruct (decide (0 ≤ (h + BX - 1) `div` BX)).
  - rewrite Z2Nat.id by done. lia.
  - rewrite Z2Nat.nonpos by lia. nia.
Qed.
Lemma copy_loop_row iptr optr (S D : block) (H : nat) BX w :
  0 < BX → blk iptr ≠ blk optr →
  mem w !! blk iptr = Some S → mem w !! blk optr = Some D →
  0 ≤ off iptr → off iptr + Z.of_nat H ≤ Z.of_nat (length S) →
  0 ≤ off optr → off optr + Z.of_nat H ≤ Z.of_nat (length D) →
  ∃ lg,
    copy_loop (Z.to_nat (tl_cdiv (Z.of_nat H) BX)) iptr optr (Z.of_nat H) BX
      (tl_arange 0 BX) w =
      (Ok tt,
       World (<[blk optr := copy_row S D (Z.to_nat (off iptr))
                              (Z.to_nat (off optr)) H]> (mem w))
             (lg ++ log w)) ∧
    Forall (λ e, ∃ c, 0 ≤ c < Z.of_nat H ∧
                      (e = Rd (iptr +ₚ c) ∨ e = Wr (optr +ₚ c))) lg.
Proof.
  intros HBX Hne HS HD Hi0 Hi1 Ho0 Ho1.
  destruct (copy_loop_run iptr optr S (Z.of_nat H) BX
              (Z.to_nat (tl_cdiv (Z.of_nat H) BX)) 0 w D)
    as (D' & lg & E & Hlen & Hset & Hfr & Hlg); try done.
  { pose proof (tl_cdiv_enough (Z.of_nat H) BX HBX). lia. }
  exists lg. split; [|done].
  unfold tl_arange. rewrite Z.sub_0_r, E. do 3 f_equal.
  apply list_eq. intros k.
  destruct (decide (Z.to_nat (off optr) ≤ k < Z.to_nat (off optr) + H)%nat)
    as [Hk|Hk].
  - replace k with (Z.to_nat (off optr) + (k - Z.to_nat (off optr)))%nat
      at 2 by lia.
    rewrite copy_row_lookup_in by lia.
    specialize (Hset (Z.of_nat k - off optr)).
    replace (Z.to_nat (off optr + (Z.of_nat k - off optr))) with k in Hset
      by lia.
    rewrite Hset by lia. f_equal. lia.
  - rewrite copy_row_lookup_out by lia. apply Hfr. lia.
Qed.
Lemma zget_lookup (l : list Z) (i : Z) :
  0 ≤ i < Z.of_nat (length l) → l !! Z.to_nat i = Some (zget l i).
Proof.
  intros Hi. unfold zget.
  destruct (lookup_lt_is_Some_2 l (Z.to_nat i)) as [z ->]; [lia|done].
Qed.

Lemma load_int_vec t (l : list Z) (i : Z) w :
  mem w !! t = Some (vals l) → 0 ≤ i < Z.of_nat (length l) →
  load_int (Ptr t 0 +ₚ i) w =
    (Ok (zget l i), World (mem w) (Rd (Ptr t 0 +ₚ i) :: log w)).
Proof.
  intros Hm Hi. eapply load_int_run; cbn; [done|lia|].
  rewrite Z.add_0_l. by apply zget_lookup.
Qed.

Lemma task_rows_run w ti tb tn tp (idx bid bs pbs : list Z) (i : nat) :
  mem w !! ti = Some (vals idx) → mem w !! tb = Some (vals bid) →
  mem w !! tn = Some (vals bs) → mem w !! tp = Some (vals pbs) →
  (i < length idx)%nat → (i < length bid)%nat →
  zget bid (Z.of_nat i) ≤ Z.of_nat (length bs) →
  zget bid (Z.of_nat i) ≤ Z.of_nat (length pbs) →
  ∃ l',
    task_rows (Ptr ti 0) (Ptr tb 0) (Ptr tn 0) (Ptr tp 0) (Z.of_nat i) w =
      (Ok (zget idx (Z.of_nat i), b_row bid bs pbs i), World (mem w) l').
Proof.
  intros Hi Hb Hn Hp Hli Hlb Hkn Hkp. unfold task_rows, b_row, prev.
  erewrite bind_run; [|by apply (load_int_vec ti idx); [|lia]].
  erewrite bind_run; [|by apply (load_int_vec tb bid); [|lia]].
  set (k := zget bid (Z.of_nat i)) in *.
  case_bool_decide as Hk.
  - erewrite bind_run.
    2:{ erewrite bind_run; [done|].
        replace (Ptr tn 0 +ₚ k +ₚ -1) with (Ptr tn 0 +ₚ (k - 1))
          by (unfold padd; cbn; f_equal; lia).
        by apply (load_int_vec tn bs); [|lia]. }
    erewrite bind_run.
    2:{ erewrite bind_run; [done|].
        replace (Ptr tp 0 +ₚ k +ₚ -1) with (Ptr tp 0 +ₚ (k - 1))
          by (unfold padd; cbn; f_equal; lia).
        by apply (load_int_vec tp pbs); [|lia]. }
    eexists. reflexivity.
  - erewrite bind_run; [|done]. erewrite bind_run; [|done].
    eexists. cbn. unfold ret. do 3 f_equal. lia.
Qed.
(** ** One launch of the kernel *)

Section kernel.
Variables (A_TO_B : bool) (xa xb ti tb tn tp : nat).
Variables (idx bid bs pbs : list Z) (H : nat) (BX : Z).
Variables (S : block) (la lb : nat).

Hypothesis HBX : 0 < BX.
Hypothesis Hab : xa ≠ xb.
Hypothesis Hdst :
  dst_blk A_TO_B xa xb ≠ ti ∧ dst_blk A_TO_B xa xb ≠ tb ∧
  dst_blk A_TO_B xa xb ≠ tn ∧ dst_blk A_TO_B xa xb ≠ tp.

Abbreviation src := (src_blk A_TO_B xa xb).
Abbreviation dst := (dst_blk A_TO_B xa xb).
Abbreviation srow := (src_row A_TO_B idx bid bs pbs).
Abbreviation drow := (dst_row A_TO_B idx bid bs pbs).
Abbreviation kernel :=
  (_padded_copy (Ptr xa 0) (Ptr xb 0) (Z.of_nat H)
     (Ptr ti 0) (Ptr tb 0) (Ptr tn 0) (Ptr tp 0) BX A_TO_B).
Abbreviation inv m D := (mem_inv m ti tb tn tp src dst idx bid bs pbs S D).
Abbreviation lens_ok D :=
  (la = (if A_TO_B then length S else length D) ∧
   lb = (if A_TO_B then length D else length S)).

Lemma mem_inv_insert m (D D' : block) :
  inv m D → inv (<[dst := D']> m) D'.
Proof.
  intros (? & ? & ? & ? & ? & Hd). destruct Hdst as (? & ? & ? & ?).
  assert (src ≠ dst) by (unfold src_blk, dst_blk; destruct A_TO_B; done).
  unfold mem_inv. rewrite !list_lookup_insert_ne by done.
  split_and!; try done.
  apply list_lookup_insert_eq. by eapply lookup_lt_Some.
Qed.

Lemma padded_copy_run w (D : block) (i : nat) :
  inv (mem w) D → lens_ok D →
  task_in_range H idx bid bs pbs la lb i →
  ∃ l',
    kernel (Z.of_nat i) w =
      (Ok tt,
       World (<[dst := copy_row S D (Z.to_nat (srow i * Z.of_nat H))
                         (Z.to_nat (drow i * Z.of_nat H)) H]> (mem w)) l').
Proof.
  intros (Hi & Hb & Hn & Hp & HS & HD) [-> ->]
         (Hli & Hlb & Hkn & Hkp & Ha0 & Ha1 & Hb0 & Hb1).
  unfold _padded_copy.
  destruct (task_rows_run w ti tb tn tp idx bid bs pbs i) as (l1 & E);
    try done.
  erewrite bind_run; [|exact E]. clear E.
  set (w1 := World _ _).
  unfold src_blk, dst_blk, src_row, dst_row in *.
  destruct A_TO_B.
  - destruct (copy_loop_row
                (Ptr xa 0 +ₚ zget idx (Z.of_nat i) * Z.of_nat H)
                (Ptr xb 0 +ₚ b_row bid bs pbs i * Z.of_nat H)
                S D H BX w1) as (lg & E & _); cbn; try done; try lia.
    rewrite E. cbn. rewrite !Z.add_0_l. eauto.
  - destruct (copy_loop_row
                (Ptr xb 0 +ₚ b_row bid bs pbs i * Z.of_nat H)
                (Ptr xa 0 +ₚ zget idx (Z.of_nat i) * Z.of_nat H)
                S D H BX w1) as (lg & E & _); cbn; try done; try lia.
    rewrite E. cbn. rewrite !Z.add_0_l. eauto.
Qed.

Lemma copy_task_length (D : block) i :
  lens_ok D → task_in_range H idx bid bs pbs la lb i →
  length (copy_row S D (Z.to_nat (srow i * Z.of_nat H))
            (Z.to_nat (drow i * Z.of_nat H)) H) = length D.
Proof.
  intros [-> ->] (_ & _ & _ & _ & Ha0 & Ha1 & Hb0 & Hb1).
  unfold src_row, dst_row. destruct A_TO_B; apply copy_row_length; nia.
Qed.

Lemma launch_run n : ∀ p w (D : block),
  inv (mem w) D → lens_ok D →
  (∀ i, (p ≤ i < p + n)%nat → task_in_range H idx bid bs pbs la lb i) →
  ∃ l',
    launch kernel p n w =
      (Ok tt,
       World (<[dst := copy_rows H S srow drow D (seq p n)]> (mem w)) l') ∧
    length (copy_rows H S srow drow D (seq p n)) = length D.
Proof.
  induction n as [|n IH]; intros p w D Hinv Hlens Hr.
  - exists (log w). split; [|done]. cbn. unfold ret.
    destruct Hinv as (_ & _ & _ & _ & _ & HD).
    destruct w as [m l]. cbn in *. by rewrite list_insert_id.
  - cbn [launch seq]. unfold copy_rows. cbn [foldl].
    set (D1 := copy_row S D _ _ H).
    erewrite bind_run; [|reflexivity].
    set (w0 := World _ _).
    destruct (padded_copy_run w0 D p) as (l1 & E); [done|done|apply Hr; lia|].
    erewrite bind_run; [|exact E]. clear E. fold D1.
    set (w1 := World _ _).
    assert (HD1 : length D1 = length D).
    { apply copy_task_length; [done|apply Hr; lia]. }
    destruct (IH (Datatypes.S p) w1 D1) as (l' & E & Hlen).
    { by eapply mem_inv_insert. }
    { destruct Hlens as [-> ->]. destruct A_TO_B; by rewrite HD1. }
    { intros i ?. apply Hr. lia. }
    exists l'. split; [|by rewrite <-HD1].
    rewrite E. subst w1. cbn. by rewrite list_insert_insert_eq.
Qed.
End kernel.
(** ** The whole-row copies of a launch, as a function on blocks *)

Section rows.
Variables (H : nat) (S : block) (srow drow : nat → Z).

Lemma copy_rows_length tasks : ∀ D : block,
  rows_in H S srow drow D tasks →
  length (copy_rows H S srow drow D tasks) = length D.
Proof.
  induction tasks as [|i tasks IH]; intros D Hr; [done|].
  unfold copy_rows. cbn [foldl].
  destruct (Hr i) as (? & ? & ? & ?); [by left|].
  set (D1 := copy_row S D _ _ H).
  assert (HD1 : length D1 = length D) by (apply copy_row_length; nia).
  fold (copy_rows H S srow drow D1 tasks). rewrite IH; [done|].
  intros j ?. rewrite HD1. apply Hr. by right.
Qed.


End rows.
(** ** Consequences of the validity invariants *)

Lemma count_le_nonneg l k : 0 ≤ count_le l k.
Proof. unfold count_le. lia. Qed.

Lemma count_le_mono l k k' : k ≤ k' → count_le l k ≤ count_le l k'.
Proof.
  intros Hk. unfold count_le. apply inj_le.
  induction l as [|a l IH]; [done|].
  rewrite !filter_cons. repeat case_decide; cbn; lia.
Qed.

Lemma count_le_all_gt l c : Forall (λ a, c < a) l → count_le l c = 0.
Proof.
  unfold count_le. induction 1 as [|a l Ha _ IH]; [done|].
  rewrite filter_cons_False by lia. done.
Qed.

(** In a sorted list, the elements that are at most [c] are exactly the
    first [count_le l c] ones. *)
Lemma count_le_sorted l c : StronglySorted Z.le l → ∀ i : nat,
  (i < length l)%nat →
  zget l (Z.of_nat i) ≤ c ↔ Z.of_nat i < count_le l c.
Proof.
  induction 1 as [|a l Hs IH Ha]; intros i Hi; [cbn in Hi; lia|].
  unfold zget. rewrite Nat2Z.id.
  destruct (decide (a ≤ c)) as [Hac|Hac].
  - unfold count_le. rewrite filter_cons_True by done.
    destruct i as [|i]; cbn [lookup list_lookup default length].
    + split; [lia|done].
    + cbn in Hi. specialize (IH i ltac:(lia)).
      unfold zget, count_le in IH. rewrite Nat2Z.id in IH.
      cbn -[Z.of_nat] in *. rewrite IH. lia.
  - assert (count_le (a :: l) c = 0) as ->.
    { apply count_le_all_gt. constructor; [lia|].
      eapply Forall_impl; [done|]. intros; cbn in *; lia. }
    destruct (lookup_lt_is_Some_2 (a :: l) i Hi) as [z Hz]. rewrite Hz. cbn.
    assert (a ≤ z).
    { destruct i; cbn in Hz; [injection Hz as ->; lia|].
      rewrite Forall_forall in Ha. apply Ha.
      by eapply list_elem_of_lookup_2. }
    lia.
Qed.

Section meta.
Variables (T : nat) (idx bid bs pbs : list Z).
Hypothesis V : valid_meta T idx bid bs pbs.

Abbreviation E := (Z.of_nat (length bs)).

Lemma bin_of_task (i : nat) :
  (i < T)%nat → 0 ≤ zget bid (Z.of_nat i) < E.
Proof.
  intros Hi. destruct V as [_ Hlen _ _ _ Hr _ _].
  rewrite Forall_forall in Hr. apply Hr.
  eapply list_elem_of_lookup_2. apply zget_lookup. lia.
Qed.

Lemma prev_bins k : 0 ≤ k < E →
  prev bs k = if bool_decide (k > 0) then count_le bid (k - 1) else 0.
Proof.
  intros Hk. unfold prev. case_bool_decide; [|done].
  apply (vm_bins _ _ _ _ _ V). lia.
Qed.

(** The tasks of group [k] are the tasks [prev bins k .. bins[k] - 1]. *)
Lemma task_in_group (i : nat) :
  (i < T)%nat →
  let k := zget bid (Z.of_nat i) in
  prev bs k ≤ Z.of_nat i < zget bs k.
Proof.
  intros Hi k. pose proof (bin_of_task i Hi) as Hk. fold k in Hk.
  assert (Hs : StronglySorted Z.le bid).
  { apply Sorted_StronglySorted; [apply _|]. apply V. }
  assert (Hlen : (i < length bid)%nat) by (rewrite (vm_bin_ids _ _ _ _ _ V); done).
  split.
  - rewrite prev_bins by done. case_bool_decide; [|lia].
    pose proof (count_le_sorted bid (k - 1) Hs i Hlen) as Hc.
    fold k in Hc. lia.
  - rewrite (vm_bins _ _ _ _ _ V) by done.
    apply (count_le_sorted bid k Hs i Hlen). done.
Qed.

Lemma group_size_bins_nonneg k : 0 ≤ k < E → 0 ≤ group_size bs k.
Proof.
  intros Hk. unfold group_size. rewrite prev_bins by done.
  rewrite (vm_bins _ _ _ _ _ V) by done.
  case_bool_decide.
  - pose proof (count_le_mono bid (k - 1) k). lia.
  - pose proof (count_le_nonneg bid k). lia.
Qed.

Lemma padded_step k : 0 ≤ k < E →
  prev pbs k + group_size bs k ≤ zget pbs k.
Proof.
  intros Hk. pose proof (vm_capacity _ _ _ _ _ V k Hk) as Hc.
  unfold group_size in *. lia.
Qed.

Lemma padded_prev_nonneg k : 0 ≤ k < E → 0 ≤ prev pbs k.
Proof.
  intros [Hk0 Hk]. revert Hk. pattern k.
  apply natlike_ind; [|clear k Hk0|done].
  - intros _. unfold prev. by rewrite bool_decide_eq_false_2 by lia.
  - intros k Hk0 IH Hk. unfold prev at 1.
    rewrite bool_decide_eq_true_2 by lia.
    replace (Z.succ k - 1) with k by lia.
    pose proof (padded_step k ltac:(lia)).
    pose proof (group_size_bins_nonneg k ltac:(lia)).
    specialize (IH ltac:(lia)). lia.
Qed.

Lemma padded_mono k k' : 0 ≤ k → k < k' → k' < E →
  zget pbs k ≤ prev pbs k'.
Proof.
  intros Hk0 Hlt. replace k' with (Z.succ k + (k' - k - 1)) by lia.
  assert (Hd : 0 ≤ k' - k - 1) by lia. revert Hd.
  generalize (k' - k - 1). intros d Hd. pattern d.
  apply natlike_ind; [| |done]; clear d Hd.
  - intros _. unfold prev. rewrite bool_decide_eq_true_2 by lia.
    replace (Z.succ k + 0 - 1) with k by lia. done.
  - intros d Hd IH Hk.
    unfold prev. rewrite bool_decide_eq_true_2 by lia.
    replace (Z.succ k + Z.succ d - 1) with (Z.succ k + d) by lia.
    pose proof (padded_step (Z.succ k + d) ltac:(lia)).
    pose proof (group_size_bins_nonneg (Z.succ k + d) ltac:(lia)).
    specialize (IH ltac:(lia)). lia.
Qed.

Lemma padded_le_last k : 0 ≤ k < E → zget pbs k ≤ zget pbs (E - 1).
Proof.
  intros Hk. destruct (decide (k = E - 1)) as [->|]; [done|].
  etrans; [apply (padded_mono k (E - 1)); lia|].
  pose proof (padded_step (E - 1) ltac:(lia)).
  pose proof (group_size_bins_nonneg (E - 1) ltac:(lia)). lia.
Qed.

(** The padded row of a task lies among the real rows of its group. *)
Lemma b_row_in_group (i : nat) :
  (i < T)%nat →
  let k := zget bid (Z.of_nat i) in
  prev pbs k ≤ b_row bid bs pbs i < prev pbs k + group_size bs k.
Proof.
  intros Hi k. pose proof (task_in_group i Hi) as Hg.
  cbn zeta in Hg. fold k in Hg.
  unfold b_row, group_size. fold k. lia.
Qed.

Lemma b_row_bounds (i : nat) :
  (i < T)%nat → 0 ≤ b_row bid bs pbs i < zget pbs (E - 1).
Proof.
  intros Hi. pose proof (b_row_in_group i Hi) as Hb.
  pose proof (bin_of_task i Hi) as Hk. cbn zeta in Hb.
  set (k := zget bid (Z.of_nat i)) in *.
  pose proof (padded_prev_nonneg k Hk).
  pose proof (padded_step k Hk). pose proof (padded_le_last k Hk). lia.
Qed.

Lemma bid_mono (i j : nat) :
  (i ≤ j)%nat → (j < T)%nat →
  zget bid (Z.of_nat i) ≤ zget bid (Z.of_nat j).
Proof.
  intros Hij Hj.
  assert (Hs : StronglySorted Z.le bid).
  { apply Sorted_StronglySorted; [apply _|]. apply V. }
  pose proof (vm_bin_ids _ _ _ _ _ V) as Hlen.
  pose proof (task_in_group j Hj) as [_ Hg]. cbn zeta in Hg.
  pose proof (bin_of_task j Hj) as Hk.
  rewrite (vm_bins _ _ _ _ _ V) in Hg by done.
  apply (count_le_sorted bid _ Hs i); lia.
Qed.

Lemma b_row_lt (i j : nat) :
  (i < j)%nat → (j < T)%nat →
  b_row bid bs pbs i < b_row bid bs pbs j.
Proof.
  intros Hij Hj.
  pose proof (bid_mono i j ltac:(lia) Hj) as Hm.
  pose proof (b_row_in_group i ltac:(lia)) as Hi'.
  pose proof (b_row_in_group j Hj) as Hj'. cbn zeta in *.
  pose proof (bin_of_task i ltac:(lia)) as Hki.
  pose proof (bin_of_task j Hj) as Hkj.
  set (k := zget bid (Z.of_nat i)) in *.
  set (k' := zget bid (Z.of_nat j)) in *.
  destruct (decide (k = k')) as [Heq|Hne].
  - unfold b_row. fold k k'. rewrite <-Heq. lia.
  - pose proof (padded_mono k k' ltac:(lia) ltac:(lia) ltac:(lia)).
    pose proof (padded_step k Hki). lia.
Qed.

Lemma b_row_inj (i j : nat) :
  (i < T)%nat → (j < T)%nat → i ≠ j →
  b_row bid bs pbs i ≠ b_row bid bs pbs j.
Proof.
  intros Hi Hj Hne.
  destruct (decide (i < j)%nat).
  - pose proof (b_row_lt i j ltac:(lia) Hj). lia.
  - pose proof (b_row_lt j i ltac:(lia) Hi). lia.
Qed.
End meta.
(** ** The two entry points *)

Lemma assert_is_matrix_run x w :
  ndim x = 2%nat → assert_is_matrix x w = (Ok tt, w).
Proof.
  intros Hx. unfold assert_is_matrix.
  by rewrite bool_decide_eq_false_2 by (by intros ?).
Qed.

Lemma assert_is_vector_run x w :
  ndim x = 1%nat → assert_is_vector x w = (Ok tt, w).
Proof.
  intros Hx. unfold assert_is_vector.
  by rewrite bool_decide_eq_false_2 by (by intros ?).
Qed.

Lemma assert_equal_run {A} `{EqDecision A} (a b : A) w :
  a = b → assert_equal a b w = (Ok tt, w).
Proof.
  intros Hx. unfold assert_equal.
  by rewrite bool_decide_eq_false_2 by (by intros ?).
Qed.

Lemma insert_last {A} (l : list A) (y z : A) :
  <[length l := z]> (l ++ [y]) = l ++ [z].
Proof.
  rewrite insert_app_r_alt by done. by rewrite Nat.sub_diag.
Qed.

Lemma lookup_last {A} (l : list A) (y : A) :
  (l ++ [y]) !! length l = Some y.
Proof. by rewrite lookup_app_r, Nat.sub_diag. Qed.

Lemma padded_gather_run BX x indices bin_ids bins padded_bins w
    (rows H : nat) (X : block) (idx bid bs pbs : list Z) :
  0 < BX →
  args_ok (mem w) x indices bin_ids bins padded_bins rows H X idx bid bs pbs →
  length idx = rows → length bid = rows → length pbs = length bs →
  (0 < length pbs)%nat → 0 ≤ padded_rows pbs →
  (∀ i, (i < rows)%nat →
        task_in_range H idx bid bs pbs (rows * H)
          (Z.to_nat (padded_rows pbs) * H) i) →
  ∃ l',
    padded_gather BX x indices bin_ids bins padded_bins w =
      (Ok (Tensor (length (mem w)) [Z.to_nat (padded_rows pbs); H]),
       World (mem w ++
                [copy_rows H X (src_row true idx bid bs pbs)
                   (dst_row true idx bid bs pbs)
                   (replicate (Z.to_nat (padded_rows pbs) * H) (Val 0))
                   (seq 0 rows)]) l').
Proof.
  intros HBX [Hxs Hx HX His Hi Hbs Hb Hns Hn Hps Hp] Hli Hlb Hlp HE HP Hr.
  unfold padded_gather.
  erewrite bind_run; [|by apply assert_is_matrix_run; unfold ndim; rewrite Hxs].
  erewrite bind_run; [|by apply assert_is_vector_run; unfold ndim; rewrite His].
  erewrite bind_run; [|by apply assert_is_vector_run; unfold ndim; rewrite Hbs].
  erewrite bind_run; [|by apply assert_is_vector_run; unfold ndim; rewrite Hns].
  erewrite bind_run; [|by apply assert_is_vector_run; unfold ndim; rewrite Hps].
  unfold dim. rewrite Hxs, His, Hbs, Hns, Hps. cbn [nth].
  do 3 (erewrite bind_run; [|apply assert_equal_run; congruence]).
  (* padded_bins[-1] *)
  unfold item_last, dim. rewrite Hps. cbn [nth].
  destruct (length pbs) as [|n] eqn:Hn'; [lia|].
  erewrite bind_run.
  2:{ apply (load_int_vec _ pbs); [done|lia]. }
  replace (zget pbs (Z.of_nat n)) with (padded_rows pbs).
  2:{ unfold padded_rows. rewrite Hn'. f_equal. lia. }
  set (w1 := World _ _).
  (* torch.zeros *)
  unfold torch_zeros. rewrite bool_decide_eq_false_2 by lia.
  erewrite bind_run; [|reflexivity].
  set (P := Z.to_nat (padded_rows pbs)).
  set (D := replicate (P * H) (Val 0)).
  set (w2 := World _ _).
  cbn [data_ptr storage].
  destruct (launch_run true (storage x) (length (mem w)) (storage indices)
              (storage bin_ids) (storage bins) (storage padded_bins)
              idx bid bs pbs H BX X (rows * H) (P * H) HBX)
    with (n := rows) (p := 0%nat) (w := w2) (D := D) as (l' & E & _).
  - apply lookup_lt_Some in Hx. lia.
  - unfold dst_blk. apply lookup_lt_Some in Hi, Hb, Hn, Hp. lia.
  - unfold mem_inv, src_blk, dst_blk. subst w2 w1. cbn.
    rewrite !lookup_app_l by (by eapply lookup_lt_Some).
    split_and!; try done. apply lookup_last.
  - subst D. by rewrite length_replicate.
  - intros i ?. apply Hr. lia.
  - erewrite bind_run; [|exact E].
    eexists. unfold ret. subst w2 w1. cbn. unfold dst_blk.
    by rewrite insert_last.
Qed.
Lemma padded_scatter_run BX x indices bin_ids bins padded_bins w
    (rows H : nat) (X : block) (idx bid bs pbs : list Z) :
  0 < BX →
  args_ok (mem w) x indices bin_ids bins padded_bins rows H X idx bid bs pbs →
  length bid = length idx → length pbs = length bs →
  (∀ i, (i < length idx)%nat →
        task_in_range H idx bid bs pbs (length idx * H) (rows * H) i) →
  ∃ l',
    padded_scatter BX x indices bin_ids bins padded_bins w =
      (Ok (Tensor (length (mem w)) [length idx; H]),
       World (mem w ++
                [copy_rows H X (src_row false idx bid bs pbs)
                   (dst_row false idx bid bs pbs)
                   (replicate (length idx * H) Undef)
                   (seq 0 (length idx))]) l').
Proof.
  intros HBX [Hxs Hx HX His Hi Hbs Hb Hns Hn Hps Hp] Hlb Hlp Hr.
  unfold padded_scatter.
  erewrite bind_run; [|by apply assert_is_matrix_run; unfold ndim; rewrite Hxs].
  erewrite bind_run; [|by apply assert_is_vector_run; unfold ndim; rewrite His].
  erewrite bind_run; [|by apply assert_is_vector_run; unfold ndim; rewrite Hbs].
  erewrite bind_run; [|by apply assert_is_vector_run; unfold ndim; rewrite Hns].
  erewrite bind_run; [|by apply assert_is_vector_run; unfold ndim; rewrite Hps].
  unfold dim. rewrite Hxs, His, Hbs, Hns, Hps. cbn [nth].
  do 2 (erewrite bind_run; [|apply assert_equal_run; congruence]).
  erewrite bind_run; [|reflexivity].
  set (T := length idx) in *.
  set (D := replicate (T * H) Undef).
  set (w2 := World _ _).
  cbn [data_ptr storage shape nth].
  destruct (launch_run false (length (mem w)) (storage x) (storage indices)
              (storage bin_ids) (storage bins) (storage padded_bins)
              idx bid bs pbs H BX X (T * H) (rows * H) HBX)
    with (n := T) (p := 0%nat) (w := w2) (D := D) as (l' & E & _).
  - apply lookup_lt_Some in Hx. lia.
  - unfold dst_blk. apply lookup_lt_Some in Hi, Hb, Hn, Hp. lia.
  - unfold mem_inv, src_blk, dst_blk. subst w2. cbn.
    rewrite !lookup_app_l by (by eapply lookup_lt_Some).
    split_and!; try done. apply lookup_last.
  - subst D. by rewrite length_replicate.
  - intros i ?. apply Hr. lia.
  - erewrite bind_run; [|exact E].
    eexists. unfold ret. subst w2. cbn. unfold dst_blk.
    by rewrite insert_last.
Qed.
(** ** Valid metadata keeps every task inside the two buffers *)

Section valid.
Variables (T : nat) (idx bid bs pbs : list Z).
Hypothesis V : valid_meta T idx bid bs pbs.

Lemma idx_length : length idx = T.
Proof.
  rewrite (Permutation_length (vm_indices _ _ _ _ _ V)), length_seqZ. lia.
Qed.

Lemma idx_range (i : nat) :
  (i < T)%nat → 0 ≤ zget idx (Z.of_nat i) < Z.of_nat T.
Proof.
  intros Hi.
  assert (zget idx (Z.of_nat i) ∈ seqZ 0 (Z.of_nat T)) as Hin.
  { rewrite <-(vm_indices _ _ _ _ _ V).
    eapply list_elem_of_lookup_2, zget_lookup. rewrite idx_length. lia. }
  apply elem_of_seqZ in Hin. lia.
Qed.



Lemma padded_rows_last : padded_rows pbs = zget pbs (Z.of_nat (length bs) - 1).
Proof. unfold padded_rows. by rewrite (vm_padded _ _ _ _ _ V). Qed.

Lemma padded_rows_nonneg : 0 ≤ padded_rows pbs.
Proof.
  rewrite padded_rows_last.
  pose proof (vm_groups _ _ _ _ _ V).
  pose proof (padded_prev_nonneg T idx bid bs pbs V
                (Z.of_nat (length bs) - 1) ltac:(lia)).
  pose proof (padded_step T idx bid bs pbs V
                (Z.of_nat (length bs) - 1) ltac:(lia)).
  pose proof (group_size_bins_nonneg T idx bid bs pbs V
                (Z.of_nat (length bs) - 1) ltac:(lia)).
  lia.
Qed.

End valid.

Lemma valid_task_in_range (T : nat) (idx bid bs pbs : list Z) (H i : nat) :
  valid_meta T idx bid bs pbs → (i < T)%nat →
  task_in_range H idx bid bs pbs (T * H)
    (Z.to_nat (padded_rows pbs) * H) i.
Proof.
  intros V Hi. unfold task_in_range.
  pose proof (idx_range T idx bid bs pbs V i Hi).
  pose proof (bin_of_task T idx bid bs pbs V i Hi).
  pose proof (b_row_bounds T idx bid bs pbs V i Hi) as Hb.
  rewrite <-(padded_rows_last T idx bid bs pbs V) in Hb.
  rewrite (idx_length T idx bid bs pbs V), (vm_bin_ids _ _ _ _ _ V),
    (vm_padded _ _ _ _ _ V).
  split_and!; try lia.
  - rewrite Nat2Z.inj_mul. nia.
  - rewrite Nat2Z.inj_mul, Z2Nat.id by lia. nia.
Qed.

(** [bins[E-1] = T], as the specification has it. *)
Lemma bins_total (T : nat) (idx bid bs pbs : list Z) :
  valid_meta T idx bid bs pbs →
  zget bs (Z.of_nat (length bs) - 1) = Z.of_nat T.
Proof.
  intros V. pose proof (vm_groups _ _ _ _ _ V).
  rewrite (vm_bins _ _ _ _ _ V) by lia.
  rewrite <-(vm_bin_ids _ _ _ _ _ V). unfold count_le. f_equal.
  pose proof (vm_range _ _ _ _ _ V) as Hr. clear V.
  induction Hr as [|a l Ha _ IH]; [reflexivity|].
  rewrite filter_cons_True by lia. cbn. by rewrite IH.
Qed.
(** ** Confinement of the stores and bounds of the accesses *)



















(** ** Exceptions *)

Lemma ro_ret {A} P (a : A) : raises_only P (ret a).
Proof. by intros w e w' [=]. Qed.

Lemma ro_fault {A} P p : raises_only P (@fault A p).
Proof. by intros w e w' [=]. Qed.

Lemma ro_bind {A B} P (m : M A) (k : A → M B) :
  raises_only P m → (∀ a, raises_only P (k a)) → raises_only P (bind m k).
Proof.
  intros Hm Hk w e w' E. unfold bind in E.
  destruct (m w) as [[a|e1|p] w1] eqn:Em.
  - by eapply Hk.
  - injection E as <- <-. by eapply Hm.
  - done.
Qed.

Lemma ro_tl_load P p : raises_only P (tl_load p).
Proof.
  intros w e w' E. unfold tl_load in E.
  repeat case_match; done.
Qed.

Lemma ro_tl_store P p c : raises_only P (tl_store p c).
Proof.
  intros w e w' E. unfold tl_store in E.
  repeat case_match; done.
Qed.

Lemma ro_load_int P p : raises_only P (load_int p).
Proof.
  apply ro_bind; [apply ro_tl_load|].
  intros [|z]; [apply ro_fault|apply ro_ret].
Qed.

Lemma ro_tl_load_v P p offsets : ∀ mask, raises_only P (tl_load_v p offsets mask).
Proof.
  induction offsets as [|o os IH]; intros mask; [apply ro_ret|].
  destruct mask as [|m ms]; [apply ro_ret|]. cbn.
  apply ro_bind; [destruct m; [apply ro_tl_load|apply ro_ret]|].
  intros x. apply ro_bind; [apply IH|]. intros xs. apply ro_ret.
Qed.

Lemma ro_tl_store_v P p offsets : ∀ x mask,
  raises_only P (tl_store_v p offsets x mask).
Proof.
  induction offsets as [|o os IH]; intros x mask; [apply ro_ret|].
  destruct x as [|v vs]; [apply ro_ret|].
  destruct mask as [|m ms]; [apply ro_ret|]. cbn.
  apply ro_bind; [destruct m; [apply ro_tl_store|apply ro_ret]|].
  intros _. by apply IH.
Qed.

Lemma ro_copy_loop P k iptr optr h BX : ∀ offsets,
  raises_only P (copy_loop k iptr optr h BX offsets).
Proof.
  induction k as [|k IH]; intros offsets; [apply ro_ret|]. cbn.
  apply ro_bind; [apply ro_tl_load_v|]. intros x.
  apply ro_bind; [by apply ro_tl_store_v|]. intros _. by apply IH.
Qed.

Lemma ro_task_rows P indices bin_ids bins padded_bins pid :
  raises_only P (task_rows indices bin_ids bins padded_bins pid).
Proof.
  unfold task_rows.
  apply ro_bind; [apply ro_load_int|]. intros index_a.
  apply ro_bind; [apply ro_load_int|]. intros bin_idx.
  apply ro_bind.
  { case_bool_decide; [|apply ro_ret].
    apply ro_bind; [apply ro_load_int|]. intros; apply ro_ret. }
  intros offset_in_bin. apply ro_bind.
  { case_bool_decide; [|apply ro_ret].
    apply ro_bind; [apply ro_load_int|]. intros; apply ro_ret. }
  intros; apply ro_ret.
Qed.

Lemma ro_padded_copy P a b h indices bin_ids bins padded_bins BX A_TO_B pid :
  raises_only P
    (_padded_copy a b h indices bin_ids bins padded_bins BX A_TO_B pid).
Proof.
  unfold _padded_copy.
  apply ro_bind; [apply ro_task_rows|]. intros [index_a index_b].
  apply ro_copy_loop.
Qed.

Lemma ro_launch P kernel k : ∀ pid,
  (∀ i, raises_only P (kernel i)) → raises_only P (launch kernel pid k).
Proof.
  induction k as [|k IH]; intros pid Hk; [apply ro_ret|]. cbn.
  apply ro_bind; [by intros w e w' [=]|]. intros _.
  apply ro_bind; [apply Hk|]. intros _. by apply IH.
Qed.

(** The body of [padded_gather] after its shape checks. *)
Lemma padded_gather_checked BX x indices bin_ids bins padded_bins w :
  shapes_ok_gather x indices bin_ids bins padded_bins →
  padded_gather BX x indices bin_ids bins padded_bins w =
    (do output_rows <- item_last padded_bins;
     do out <- torch_zeros output_rows (dim x 1);
     launch (_padded_copy (data_ptr x) (data_ptr out) (Z.of_nat (dim x 1))
               (data_ptr indices) (data_ptr bin_ids) (data_ptr bins)
               (data_ptr padded_bins) BX true)
            0 (dim x 0);;
     ret out) w.
Proof.
  intros (H1 & H2 & H3 & H4 & H5 & H6 & H7 & H8). unfold padded_gather.
  erewrite bind_run; [|by apply assert_is_matrix_run].
  do 4 (erewrite bind_run; [|by apply assert_is_vector_run]).
  do 2 (erewrite bind_run; [|by apply assert_equal_run]).
  erewrite bind_run; [done|]. apply assert_equal_run.
  unfold ndim, dim in *.
  destruct (shape bins) as [|? [|]]; try done.
  destruct (shape padded_bins) as [|? [|]]; try done.
  cbn in H8. by subst.
Qed.

Lemma padded_gather_rejected BX x indices bin_ids bins padded_bins w :
  ¬ shapes_ok_gather x indices bin_ids bins padded_bins →
  padded_gather BX x indices bin_ids bins padded_bins w =
    (Raise ValueError, w).
Proof.
  intros Hno. unfold padded_gather.
  destruct (decide (ndim x = 2%nat)) as [H1|H1];
    [erewrite bind_run; [|by apply assert_is_matrix_run]
    |unfold bind, assert_is_matrix; by rewrite bool_decide_eq_true_2].
  destruct (decide (ndim indices = 1%nat)) as [H2|H2];
    [erewrite bind_run; [|by apply assert_is_vector_run]
    |unfold bind, assert_is_vector; by rewrite bool_decide_eq_true_2].
  destruct (decide (ndim bin_ids = 1%nat)) as [H3|H3];
    [erewrite bind_run; [|by apply assert_is_vector_run]
    |unfold bind, assert_is_vector; by rewrite bool_decide_eq_true_2].
  destruct (decide (ndim bins = 1%nat)) as [H4|H4];
    [erewrite bind_run; [|by apply assert_is_vector_run]
    |unfold bind, assert_is_vector; by rewrite bool_decide_eq_true_2].
  destruct (decide (ndim padded_bins = 1%nat)) as [H5|H5];
    [erewrite bind_run; [|by apply assert_is_vector_run]
    |unfold bind, assert_is_vector; by rewrite bool_decide_eq_true_2].
  destruct (decide (dim indices 0 = dim x 0)) as [H6|H6];
    [erewrite bind_run; [|by apply assert_equal_run]
    |unfold bind, assert_equal; by rewrite bool_decide_eq_true_2].
  destruct (decide (dim bin_ids 0 = dim x 0)) as [H7|H7];
    [erewrite bind_run; [|by apply assert_equal_run]
    |unfold bind, assert_equal; by rewrite bool_decide_eq_true_2].
  destruct (decide (shape bins = shape padded_bins)) as [H8|H8];
    [|unfold bind, assert_equal; by rewrite bool_decide_eq_true_2].
  destruct Hno. unfold shapes_ok_gather, dim. by rewrite H8.
Qed.
Lemma padded_scatter_checked BX x indices bin_ids bins padded_bins w :
  shapes_ok_scatter x indices bin_ids bins padded_bins →
  padded_scatter BX x indices bin_ids bins padded_bins w =
    (do out <- torch_empty (dim indices 0) (dim x 1);
     launch (_padded_copy (data_ptr out) (data_ptr x) (Z.of_nat (dim x 1))
               (data_ptr indices) (data_ptr bin_ids) (data_ptr bins)
               (data_ptr padded_bins) BX false)
            0 (dim out 0);;
     ret out) w.
Proof.
  intros (H1 & H2 & H3 & H4 & H5 & H6 & H7). unfold padded_scatter.
  erewrite bind_run; [|by apply assert_is_matrix_run].
  do 4 (erewrite bind_run; [|by apply assert_is_vector_run]).
  erewrite bind_run; [|by apply assert_equal_run].
  erewrite bind_run; [done|]. apply assert_equal_run.
  unfold ndim, dim in *.
  destruct (shape bins) as [|? [|]]; try done.
  destruct (shape padded_bins) as [|? [|]]; try done.
  cbn in H7. by subst.
Qed.

Lemma padded_scatter_rejected BX x indices bin_ids bins padded_bins w :
  ¬ shapes_ok_scatter x indices bin_ids bins padded_bins →
  padded_scatter BX x indices bin_ids bins padded_bins w =
    (Raise ValueError, w).
Proof.
  intros Hno. unfold padded_scatter.
  destruct (decide (ndim x = 2%nat)) as [H1|H1];
    [erewrite bind_run; [|by apply assert_is_matrix_run]
    |unfold bind, assert_is_matrix; by rewrite bool_decide_eq_true_2].
  destruct (decide (ndim indices = 1%nat)) as [H2|H2];
    [erewrite bind_run; [|by apply assert_is_vector_run]
    |unfold bind, assert_is_vector; by rewrite bool_decide_eq_true_2].
  destruct (decide (ndim bin_ids = 1%nat)) as [H3|H3];
    [erewrite bind_run; [|by apply assert_is_vector_run]
    |unfold bind, assert_is_vector; by rewrite bool_decide_eq_true_2].
  destruct (decide (ndim bins = 1%nat)) as [H4|H4];
    [erewrite bind_run; [|by apply assert_is_vector_run]
    |unfold bind, assert_is_vector; by rewrite bool_decide_eq_true_2].
  destruct (decide (ndim padded_bins = 1%nat)) as [H5|H5];
    [erewrite bind_run; [|by apply assert_is_vector_run]
    |unfold bind, assert_is_vector; by rewrite bool_decide_eq_true_2].
  destruct (decide (dim indices 0 = dim bin_ids 0)) as [H6|H6];
    [erewrite bind_run; [|by apply assert_equal_run]
    |unfold bind, assert_equal; by rewrite bool_decide_eq_true_2].
  destruct (decide (shape bins = shape padded_bins)) as [H8|H8];
    [|unfold bind, assert_equal; by rewrite bool_decide_eq_true_2].
  destruct Hno. unfold shapes_ok_scatter, dim. by rewrite H8.
Qed.

Lemma ro_launch_copy P a b h indices bin_ids bins padded_bins BX A_TO_B n
    (out : tensor) :
  raises_only P
    (launch (_padded_copy a b h indices bin_ids bins padded_bins BX A_TO_B)
       0 n;; ret out).
Proof.
  apply ro_bind; [|intros; apply ro_ret].
  apply ro_launch. intros i. apply ro_padded_copy.
Qed.

Lemma load_int_world p w r w1 :
  load_int p w = (r, w1) →
  mem w1 = mem w ∧ (log w1 = log w ∨ log w1 = Rd p :: log w).
Proof.
  unfold load_int, bind, tl_load. intros E.
  repeat case_match; simplify_eq; cbn; eauto.
  match goal with a : cell |- _ => destruct a end;
    cbn in *; unfold fault, ret in *; simplify_eq; cbn; eauto.
Qed.

(** An exception of [padded_gather] leaves the memory as it was, and the
    log with at most one more read. *)
Lemma padded_gather_raise BX x indices bin_ids bins padded_bins w e w' :
  padded_gather BX x indices bin_ids bins padded_bins w = (Raise e, w') →
  (e = ValueError ↔ ¬ shapes_ok_gather x indices bin_ids bins padded_bins) ∧
  mem w' = mem w ∧
  ∃ lg, log w' = lg ++ log w ∧ Forall (λ ev, ∃ p, ev = Rd p) lg.
Proof.
  intros E.
  destruct (decide (shapes_ok_gather x indices bin_ids bins padded_bins))
    as [Hok|Hno].
  - rewrite padded_gather_checked in E by done.
    unfold bind in E.
    destruct (item_last padded_bins w) as [[z|e1|p] w1] eqn:E1.
    + unfold item_last in E1. destruct (dim padded_bins 0); [done|].
      apply load_int_world in E1 as [Hm Hl].
      assert (e ≠ ValueError ∧ w' = w1) as [He ->].
      { unfold torch_zeros in E. case_bool_decide.
        - by injection E as <- <-.
        - exfalso. revert E. unfold alloc_matrix.
          match goal with
          | |- context [launch ?k 0 ?n ?w2] =>
              destruct (launch k 0 n w2) as [[[]|e2|p2] w3] eqn:E3
          end; try done.
          intros [= -> ->].
          eapply (ro_launch (λ _, False)) in E3; [done|].
          intros i. apply ro_padded_copy. }
      split_and!; [naive_solver|done|].
      destruct Hl as [->| ->]; [by exists []|].
      eexists [_]. split; [done|]. repeat constructor. eauto.
    + injection E as <- <-. unfold item_last in E1.
      destruct (dim padded_bins 0).
      * injection E1 as <- <-. split_and!; [naive_solver|done|by exists []].
      * by eapply (ro_load_int (λ _, False)) in E1.
    + done.
  - rewrite padded_gather_rejected in E by done. injection E as <- <-.
    split_and!; [naive_solver|done|by exists []].
Qed.

Lemma padded_scatter_raise BX x indices bin_ids bins padded_bins w e w' :
  padded_scatter BX x indices bin_ids bins padded_bins w = (Raise e, w') →
  ¬ shapes_ok_scatter x indices bin_ids bins padded_bins ∧
  e = ValueError ∧ w' = w.
Proof.
  intros E.
  destruct (decide (shapes_ok_scatter x indices bin_ids bins padded_bins))
    as [Hok|Hno].
  - rewrite padded_scatter_checked in E by done. exfalso.
    revert E. unfold bind, torch_empty, alloc_matrix.
    match goal with
    | |- context [launch ?k 0 ?n ?w2] =>
        destruct (launch k 0 n w2) as [[[]|e2|p2] w3] eqn:E3
    end; try done.
    intros [= -> ->].
    eapply (ro_launch (λ _, False)) in E3; [done|].
    intros i. apply ro_padded_copy.
  - rewrite padded_scatter_rejected in E by done. by injection E as <- <-.
Qed.
(** ** The two blocks under valid metadata *)

Section blocks.
Variables (T H : nat) (idx bid bs pbs : list Z).
Hypothesis V : valid_meta T idx bid bs pbs.

Abbreviation P := (Z.to_nat (padded_rows pbs)).
Abbreviation brow i := (Z.to_nat (b_row bid bs pbs i)).
Abbreviation arow i := (Z.to_nat (zget idx (Z.of_nat i))).

Lemma rows_in_gather (M : block) :
  length M = (T * H)%nat →
  rows_in H M (src_row true idx bid bs pbs) (dst_row true idx bid bs pbs)
    (replicate (P * H) (Val 0)) (seq 0 T).
Proof.
  intros HM i [_ Hi]%elem_of_seq.
  destruct (valid_task_in_range T idx bid bs pbs H i V)
    as (_ & _ & _ & _ & ? & ? & ? & ?); [lia|].
  unfold src_row, dst_row. rewrite HM, length_replicate. done.
Qed.

Lemma rows_in_scatter (X : block) :
  length X = (P * H)%nat →
  rows_in H X (src_row false idx bid bs pbs) (dst_row false idx bid bs pbs)
    (replicate (T * H) Undef) (seq 0 T).
Proof.
  intros HX i [_ Hi]%elem_of_seq.
  destruct (valid_task_in_range T idx bid bs pbs H i V)
    as (_ & _ & _ & _ & ? & ? & ? & ?); [lia|].
  unfold src_row, dst_row. rewrite HX, length_replicate. done.
Qed.

Lemma gather_block_length (M : block) :
  length M = (T * H)%nat →
  length (gather_block H M idx bid bs pbs) = (P * H)%nat.
Proof.
  intros HM. unfold gather_block. rewrite (idx_length T idx bid bs pbs V).
  rewrite copy_rows_length by by apply rows_in_gather.
  apply length_replicate.
Qed.

Lemma scatter_block_length (X : block) :
  length X = (P * H)%nat →
  length (scatter_block H X idx bid bs pbs) = (T * H)%nat.
Proof.
  intros HX. unfold scatter_block. rewrite (idx_length T idx bid bs pbs V).
  rewrite copy_rows_length by by apply rows_in_scatter.
  apply length_replicate.
Qed.






End blocks.
(** ** The entry points on valid inputs *)

Lemma padded_gather_valid BX x indices bin_ids bins padded_bins w
    (T H : nat) (M : block) (idx bid bs pbs : list Z) :
  0 < BX →
  args_ok (mem w) x indices bin_ids bins padded_bins T H M idx bid bs pbs →
  valid_meta T idx bid bs pbs →
  ∃ l',
    padded_gather BX x indices bin_ids bins padded_bins w =
      (Ok (Tensor (length (mem w)) [Z.to_nat (padded_rows pbs); H]),
       World (mem w ++ [gather_block H M idx bid bs pbs]) l').
Proof.
  intros HBX Hargs V. unfold gather_block.
  rewrite (idx_length T idx bid bs pbs V).
  pose proof (vm_groups _ _ _ _ _ V).
  eapply padded_gather_run; try done.
  - by eapply idx_length.
  - apply V.
  - apply V.
  - rewrite (vm_padded _ _ _ _ _ V). done.
  - by eapply padded_rows_nonneg.
  - intros i Hi. by apply valid_task_in_range.
Qed.

Lemma padded_scatter_valid BX x indices bin_ids bins padded_bins w
    (T H : nat) (X : block) (idx bid bs pbs : list Z) :
  0 < BX →
  args_ok (mem w) x indices bin_ids bins padded_bins
    (Z.to_nat (padded_rows pbs)) H X idx bid bs pbs →
  valid_meta T idx bid bs pbs →
  ∃ l',
    padded_scatter BX x indices bin_ids bins padded_bins w =
      (Ok (Tensor (length (mem w)) [T; H]),
       World (mem w ++ [scatter_block H X idx bid bs pbs]) l').
Proof.
  intros HBX Hargs V. unfold scatter_block.
  pose proof (idx_length T idx bid bs pbs V) as HT.
  rewrite <-HT.
  eapply padded_scatter_run; try done.
  - rewrite HT. apply V.
  - apply V.
  - rewrite HT. intros i Hi. by apply valid_task_in_range.
Qed.


Lemma scenario_args_ok :
  args_ok scenario_mem scenario_x scenario_indices scenario_bin_ids
    scenario_bins scenario_padded_bins 4 2 (vals [1;1; 2;2; 3;3; 4;4])
    [0; 1; 2; 3] [0; 0; 1; 1] [2; 4] [3; 5].
Proof. by split. Qed.

Lemma scenario_valid : valid_meta 4 [0; 1; 2; 3] [0; 0; 1; 1] [2; 4] [3; 5].
Proof.
  split; try done.
  - cbn. lia.
  - repeat constructor; lia.
  - repeat constructor; cbn; lia.
  - intros k Hk. cbn in Hk.
    assert (k = 0 ∨ k = 1) as [-> | ->] by lia; reflexivity.
  - intros k Hk. cbn in Hk.
    assert (k = 0 ∨ k = 1) as [-> | ->] by lia; vm_compute; done.
Qed.





Lemma b_row_real (T : nat) (idx bid bs pbs : list Z) (i : nat) :
  valid_meta T idx bid bs pbs → (i < T)%nat →
  real_row bs pbs (b_row bid bs pbs i).
Proof.
  intros V Hi. exists (zget bid (Z.of_nat i)). split.
  - by eapply bin_of_task.
  - by eapply b_row_in_group.
Qed.



(** C4. On valid metadata the kernel computes for task [i] the rows
    [indices[i]] and [b_row i]; the map from tasks to padded rows is
    injective, and every [b_row i] is inside the padded buffer, among the
    real rows of the group of task [i], never in a padding slot. *)
Theorem padded_row_injective x indices bin_ids bins padded_bins w
    (T H : nat) (M : block) (idx bid bs pbs : list Z) :
  args_ok (mem w) x indices bin_ids bins padded_bins T H M idx bid bs pbs →
  valid_meta T idx bid bs pbs →
  (∀ i : nat, (i < T)%nat →
     ∃ l', task_rows (data_ptr indices) (data_ptr bin_ids) (data_ptr bins)
             (data_ptr padded_bins) (Z.of_nat i) w =
           (Ok (zget idx (Z.of_nat i), b_row bid bs pbs i),
            World (mem w) l')) ∧
  (∀ i j : nat, (i < T)%nat → (j < T)%nat → i ≠ j →
     b_row bid bs pbs i ≠ b_row bid bs pbs j) ∧
  (∀ i : nat, (i < T)%nat →
     0 ≤ b_row bid bs pbs i < padded_rows pbs ∧
     (let k := zget bid (Z.of_nat i) in
      prev pbs k ≤ b_row bid bs pbs i < prev pbs k + group_size bs k) ∧
     real_row bs pbs (b_row bid bs pbs i)).
Proof.
  intros Hargs V. split_and!.
  - intros i Hi.
    destruct (valid_task_in_range T idx bid bs pbs H i V Hi)
      as (? & ? & ? & ? & _).
    eapply task_rows_run; try done; apply Hargs.
  - intros i j ? ? ?. by apply (b_row_inj T idx bid bs pbs V).
  - intros i Hi. split; [|split].
    + rewrite (padded_rows_last T idx bid bs pbs V).
      by eapply b_row_bounds.
    + by eapply b_row_in_group.
    + by eapply b_row_real.
Qed.

Lemma padded_row_injective_witness :
  b_row [0; 0; 1; 1] [2; 4] [3; 5] 1 ≠ b_row [0; 0; 1; 1] [2; 4] [3; 5] 2.
Proof.
  refine (proj1 (proj2 (padded_row_injective scenario_x scenario_indices
           scenario_bin_ids scenario_bins scenario_padded_bins
           (World scenario_mem []) 4 2 (vals [1;1; 2;2; 3;3; 4;4])
           [0; 1; 2; 3] [0; 0; 1; 1] [2; 4] [3; 5] _ _)) 1%nat 2%nat _ _ _).
  - apply scenario_args_ok.
  - apply scenario_valid.
  - lia.
  - lia.
  - lia.
Defined.

(** C5. On valid metadata the output of [padded_gather] is a matrix of
    [padded_bins[-1]] rows, the output of [padded_scatter] is a matrix of
    [len(indices)] rows, and both have the columns of the input matrix. *)
Theorem output_sizes BX indices bin_ids bins padded_bins w
    (T H : nat) (idx bid bs pbs : list Z) :
  0 < BX → valid_meta T idx bid bs pbs →
  (∀ x M,
     args_ok (mem w) x indices bin_ids bins padded_bins T H M idx bid bs pbs →
     ∃ out w' G,
       padded_gather BX x indices bin_ids bins padded_bins w = (Ok out, w') ∧
       ndim out = 2%nat ∧
       Z.of_nat (dim out 0) = padded_rows pbs ∧
       dim out 1 = dim x 1 ∧
       mem w' !! storage out = Some G ∧
       length G = (dim out 0 * dim out 1)%nat) ∧
  (∀ x X,
     args_ok (mem w) x indices bin_ids bins padded_bins
       (Z.to_nat (padded_rows pbs)) H X idx bid bs pbs →
     ∃ out w' R,
       padded_scatter BX x indices bin_ids bins padded_bins w = (Ok out, w') ∧
       ndim out = 2%nat ∧
       dim out 0 = dim indices 0 ∧ dim out 0 = length idx ∧
       dim out 1 = dim x 1 ∧
       mem w' !! storage out = Some R ∧
       length R = (dim out 0 * dim out 1)%nat).
Proof.
  intros HBX V. split.
  - intros x M Hargs.
    destruct (padded_gather_valid BX x indices bin_ids bins padded_bins w
                T H M idx bid bs pbs) as (l1 & E1); try done.
    do 3 eexists. split_and!; [exact E1|done|..|apply lookup_last|].
    + cbn. rewrite Z2Nat.id; [done|]. by eapply padded_rows_nonneg.
    + unfold dim. cbn. by rewrite (ao_x_shape _ _ _ _ _ _ _ _ _ _ _ _ _ Hargs).
    + cbn. eapply gather_block_length; [done|]. apply Hargs.
  - intros x X Hargs.
    destruct (padded_scatter_valid BX x indices bin_ids bins padded_bins w
                T H X idx bid bs pbs) as (l1 & E1); try done.
    pose proof (idx_length T idx bid bs pbs V) as HT.
    do 3 eexists. split_and!; [exact E1|done|..|apply lookup_last|].
    + unfold dim. cbn.
      by rewrite (ao_indices_shape _ _ _ _ _ _ _ _ _ _ _ _ _ Hargs).
    + done.
    + unfold dim. cbn. by rewrite (ao_x_shape _ _ _ _ _ _ _ _ _ _ _ _ _ Hargs).
    + cbn. eapply scatter_block_length; [done|]. apply Hargs.
Qed.

Lemma output_sizes_witness :
  ∃ out w' G,
    padded_gather 64 scenario_x scenario_indices scenario_bin_ids
      scenario_bins scenario_padded_bins (World scenario_mem []) =
      (Ok out, w') ∧
    ndim out = 2%nat ∧
    Z.of_nat (dim out 0) = padded_rows [3; 5] ∧
    dim out 1 = dim scenario_x 1 ∧
    mem w' !! storage out = Some G ∧
    length G = (dim out 0 * dim out 1)%nat.
Proof.
  refine (proj1 (output_sizes 64 scenario_indices scenario_bin_ids
           scenario_bins scenario_padded_bins (World scenario_mem []) 4 2
           [0; 1; 2; 3] [0; 0; 1; 1] [2; 4] [3; 5] _ _) scenario_x _ _).
  - lia.
  - apply scenario_valid.
  - apply scenario_args_ok.
Defined.
(** ** What a call may do to the memory *)

















Example chunk_copy_runs :
  copy_row (vals [1; 2; 3; 4; 5; 6]) (vals [0; 0; 0; 9]) 3 0 3 =
  vals [4; 5; 6; 9].
Proof. reflexivity. Qed.

(** ** Empty input *)

Lemma empty_valid : valid_meta 0 [] [] [0] [2].
Proof.
  split.
  - done.
  - done.
  - cbn; lia.
  - done.
  - constructor.
  - constructor.
  - intros k Hk. cbn in Hk. assert (k = 0) as -> by lia. reflexivity.
  - intros k Hk. cbn in Hk. assert (k = 0) as -> by lia. vm_compute. done.
Qed.

Lemma empty_args_ok :
  args_ok empty_mem (Tensor 0 [0; 1]%nat) (Tensor 1 [0]%nat)
    (Tensor 2 [0]%nat) (Tensor 3 [1]%nat) (Tensor 4 [1]%nat)
    0 1 [] [] [] [0] [2].
Proof. by split. Qed.

(** C7, as stated, fails for [padded_gather]: with no task at all, one
    group and [padded_bins = [2]], which satisfies every invariant of the
    specification, the returned matrix has 2 rows, not 0. *)
Lemma gather_empty_input_has_rows :
  valid_meta 0 [] [] [0] [2] ∧
  args_ok empty_mem (Tensor 0 [0; 1]%nat) (Tensor 1 [0]%nat)
    (Tensor 2 [0]%nat) (Tensor 3 [1]%nat) (Tensor 4 [1]%nat)
    0 1 [] [] [] [0] [2] ∧
  ∃ w', padded_gather 64 (Tensor 0 [0; 1]%nat) (Tensor 1 [0]%nat)
          (Tensor 2 [0]%nat) (Tensor 3 [1]%nat) (Tensor 4 [1]%nat)
          (World empty_mem []) = (Ok (Tensor 5 [2; 1]%nat), w') ∧
        dim (Tensor 5 [2; 1]%nat) 0 = 2%nat.
Proof.
  split_and!.
  - apply empty_valid.
  - apply empty_args_ok.
  - eexists. split; [vm_compute; reflexivity|done].
Qed.

(** C7, amended. With no task ([indices] and [bin_ids] empty, an unpadded
    matrix of 0 rows) and valid [bins] and [padded_bins] for at least one
    group, neither entry point raises: [padded_scatter] returns a matrix of
    0 rows, and [padded_gather] returns a matrix of [padded_bins[-1]] rows,
    all zeros, which has 0 rows exactly when [padded_bins[-1] = 0]. *)
Theorem empty_input BX indices bin_ids bins padded_bins w
    (H : nat) (bs pbs : list Z) :
  0 < BX → valid_meta 0 [] [] bs pbs →
  (∀ x M,
     args_ok (mem w) x indices bin_ids bins padded_bins 0 H M [] [] bs pbs →
     ∃ out w',
       padded_gather BX x indices bin_ids bins padded_bins w = (Ok out, w') ∧
       shape out = [Z.to_nat (padded_rows pbs); H] ∧
       mem w' !! storage out =
         Some (replicate (Z.to_nat (padded_rows pbs) * H) (Val 0)) ∧
       (dim out 0 = 0%nat ↔ padded_rows pbs = 0)) ∧
  (∀ x X,
     args_ok (mem w) x indices bin_ids bins padded_bins
       (Z.to_nat (padded_rows pbs)) H X [] [] bs pbs →
     ∃ out w',
       padded_scatter BX x indices bin_ids bins padded_bins w = (Ok out, w') ∧
       shape out = [0%nat; H] ∧
       mem w' !! storage out = Some []).
Proof.
  intros HBX V. split.
  - intros x M Hargs.
    destruct (padded_gather_valid BX x indices bin_ids bins padded_bins w
                0 H M [] [] bs pbs) as (l1 & E1); try done.
    do 2 eexists. split_and!; [exact E1|done|apply lookup_last|].
    pose proof (padded_rows_nonneg 0 [] [] bs pbs V).
    unfold dim. cbn. lia.
  - intros x X Hargs.
    destruct (padded_scatter_valid BX x indices bin_ids bins padded_bins w
                0 H X [] [] bs pbs) as (l1 & E1); try done.
    do 2 eexists. split_and!; [exact E1|done|apply lookup_last].
Qed.

Lemma empty_input_witness :
  ∃ out w',
    padded_gather 64 (Tensor 0 [0; 1]%nat) (Tensor 1 [0]%nat)
      (Tensor 2 [0]%nat) (Tensor 3 [1]%nat) (Tensor 4 [1]%nat)
      (World empty_mem []) = (Ok out, w') ∧
    shape out = [Z.to_nat (padded_rows [2]); 1%nat] ∧
    mem w' !! storage out =
      Some (replicate (Z.to_nat (padded_rows [2]) * 1) (Val 0)) ∧
    (dim out 0 = 0%nat ↔ padded_rows [2] = 0).
Proof.
  refine (proj1 (empty_input 64 (Tensor 1 [0]%nat) (Tensor 2 [0]%nat)
           (Tensor 3 [1]%nat) (Tensor 4 [1]%nat) (World empty_mem []) 1
           [0] [2] _ _) (Tensor 0 [0; 1]%nat) [] _).
  - lia.
  - apply empty_valid.
  - apply empty_args_ok.
Defined.
(** ** Memory safety *)





(** ** Shape errors *)

(** C9, as stated, fails for [padded_gather]: with every rank right and
    every checked length equal, but no group at all, [padded_bins[-1]]
    raises [IndexError]: an error that is not one of the shape errors. *)
Lemma gather_raises_without_shape_error :
  shapes_ok_gather (Tensor 0 [0; 1]%nat) (Tensor 1 [0]%nat)
    (Tensor 2 [0]%nat) (Tensor 3 [0]%nat) (Tensor 4 [0]%nat) ∧
  padded_gather 64 (Tensor 0 [0; 1]%nat) (Tensor 1 [0]%nat)
    (Tensor 2 [0]%nat) (Tensor 3 [0]%nat) (Tensor 4 [0]%nat)
    (World no_group_mem []) = (Raise IndexError, World no_group_mem []).
Proof. split; [by repeat split|reflexivity]. Qed.

(** C9, amended. Each entry point raises [ValueError] exactly when a rank
    is wrong or two checked lengths differ, and then nothing at all has
    happened; whatever exception an entry point raises, the memory is as
    before the call and the log has gained no allocation, no launch and no
    store (at most the read of [padded_bins[-1]]); [padded_scatter] raises
    nothing but [ValueError]. *)
Theorem shape_errors BX x indices bin_ids bins padded_bins w :
  ((∃ w', padded_gather BX x indices bin_ids bins padded_bins w =
            (Raise ValueError, w')) ↔
   ¬ shapes_ok_gather x indices bin_ids bins padded_bins) ∧
  ((∃ w', padded_scatter BX x indices bin_ids bins padded_bins w =
            (Raise ValueError, w')) ↔
   ¬ shapes_ok_scatter x indices bin_ids bins padded_bins) ∧
  (∀ w', padded_gather BX x indices bin_ids bins padded_bins w =
           (Raise ValueError, w') → w' = w) ∧
  (∀ e w', padded_gather BX x indices bin_ids bins padded_bins w =
             (Raise e, w') →
           mem w' = mem w ∧
           ∃ lg, log w' = lg ++ log w ∧ Forall (λ ev, ∃ p, ev = Rd p) lg) ∧
  (∀ e w', padded_scatter BX x indices bin_ids bins padded_bins w =
             (Raise e, w') → e = ValueError ∧ w' = w).
Proof.
  split_and!.
  - split.
    + intros [w' E]. by apply padded_gather_raise in E as [[Hv _] _]; auto.
    + intros Hno. exists w. by apply padded_gather_rejected.
  - split.
    + intros [w' E]. by apply padded_scatter_raise in E as [? _].
    + intros Hno. exists w. by apply padded_scatter_rejected.
  - intros w' E. pose proof E as E'.
    apply padded_gather_raise in E' as [[Hv _] _].
    rewrite padded_gather_rejected in E by auto. by injection E.
  - intros e w' E. by apply padded_gather_raise in E as (_ & ? & ?).
  - intros e w' E. by apply padded_scatter_raise in E as (_ & ? & ?).
Qed.
(** ** Gather after scatter *)




(** ** Order of the rows in the padded buffer *)

(** X2. On valid metadata the padded rows keep the order of the tasks:
    [b_row] is strictly increasing, two consecutive tasks of one group get
    consecutive rows, and the first task of a group gets the first row of
    the group's padded range. *)
Theorem padded_rows_keep_order (T : nat) (idx bid bs pbs : list Z) :
  valid_meta T idx bid bs pbs →
  (∀ i j : nat, (i < j)%nat → (j < T)%nat →
     b_row bid bs pbs i < b_row bid bs pbs j) ∧
  (∀ i : nat, (S i < T)%nat →
     zget bid (Z.of_nat i) = zget bid (Z.of_nat (S i)) →
     b_row bid bs pbs (S i) = b_row bid bs pbs i + 1) ∧
  (∀ i : nat, (i < T)%nat →
     Z.of_nat i = prev bs (zget bid (Z.of_nat i)) →
     b_row bid bs pbs i = prev pbs (zget bid (Z.of_nat i))).
Proof.
  intros V. split_and!.
  - intros i j. by apply (b_row_lt T idx bid bs pbs V).
  - intros i Hi Hk. unfold b_row. rewrite <-Hk. lia.
  - intros i Hi Hfirst. unfold b_row. lia.
Qed.

Lemma padded_rows_keep_order_witness :
  b_row [0; 0; 1; 1] [2; 4] [3; 5] 1 < b_row [0; 0; 1; 1] [2; 4] [3; 5] 2.
Proof.
  refine (proj1 (padded_rows_keep_order 4 [0; 1; 2; 3] [0; 0; 1; 1]
                   [2; 4] [3; 5] _) 1%nat 2%nat _ _).
  - apply scenario_valid.
  - lia.
  - lia.
Defined.

(** ** Uninitialised memory in the output of scatter *)





(** ** The block width and the entry points *)



(** ** Launching the kernel again *)

Section relaunch.
Variables (H : nat) (S : block) (srow drow : nat → Z).

Abbreviation covers k :=
  (λ i : nat, drow i * Z.of_nat H ≤ Z.of_nat k < (drow i + 1) * Z.of_nat H).


End relaunch.


(** ** A padded buffer with more rows than [padded_bins[-1]] *)




(** ** The other exception of gather *)

(** X8. [padded_gather] raises [IndexError] exactly when the shapes pass
    every check and [padded_bins] is empty (then so is [bins]): the error
    comes from [padded_bins[-1]], before anything is allocated, and the
    world is left as it was.  [padded_scatter] never reads
    [padded_bins[-1]] and raises no such error. *)
Theorem gather_index_error BX x indices bin_ids bins padded_bins w :
  ((∃ w', padded_gather BX x indices bin_ids bins padded_bins w =
            (Raise IndexError, w')) ↔
   shapes_ok_gather x indices bin_ids bins padded_bins ∧
   dim padded_bins 0 = 0%nat) ∧
  (∀ w', padded_gather BX x indices bin_ids bins padded_bins w =
           (Raise IndexError, w') → w' = w) ∧
  (∀ w', padded_scatter BX x indices bin_ids bins padded_bins w ≠
           (Raise IndexError, w')).
Proof.
  assert (Hinv : ∀ w',
            padded_gather BX x indices bin_ids bins padded_bins w =
              (Raise IndexError, w') →
            shapes_ok_gather x indices bin_ids bins padded_bins ∧
            dim padded_bins 0 = 0%nat ∧ w' = w).
  { intros w' E. pose proof E as E'.
    apply padded_gather_raise in E' as [[_ Hv] _].
    destruct (decide (shapes_ok_gather x indices bin_ids bins padded_bins))
      as [Hok|Hno]; [|by specialize (Hv Hno)].
    split; [done|]. clear Hv.
    rewrite padded_gather_checked in E by done. unfold bind in E.
    unfold item_last in E.
    destruct (dim padded_bins 0) as [|n]; [by injection E as <-|].
    exfalso.
    destruct (load_int _ w) as [[z|e1|p] w1] eqn:E1.
    - unfold torch_zeros in E. case_bool_decide; [done|].
      unfold alloc_matrix in E.
      match type of E with
      | context [launch ?k 0 ?n ?w2] =>
          destruct (launch k 0 n w2) as [[[]|e2|p2] w3] eqn:E3
      end; try done.
      eapply (ro_launch (λ _, False)) in E3; [done|].
      intros i. apply ro_padded_copy.
    - by eapply (ro_load_int (λ _, False)) in E1.
    - done. }
  split_and!.
  - split.
    + intros [w' E]. by apply Hinv in E as (? & ? & _).
    + intros [Hok H0]. exists w.
      rewrite padded_gather_checked by done.
      unfold bind, item_last. by rewrite H0.
  - intros w' E. by apply Hinv in E as (_ & _ & ?).
  - intros w' E. by apply padded_scatter_raise in E as (_ & ? & _).
Qed.

(** ** Tasks of the first bin *)

(** X9. A task whose bin id is 0 (or negative) takes neither branch
    [if bin_idx > 0] of the kernel: its padded row is its task id, and it
    reads [indices] and [bin_ids] only, so that [bins] and [padded_bins]
    may be any pointers, even outside the memory. *)
Theorem first_bin_reads_no_bounds w ti tb (idx bid : list Z) (i : nat)
    (bins padded_bins : ptr) :
  mem w !! ti = Some (vals idx) → mem w !! tb = Some (vals bid) →
  (i < length idx)%nat → (i < length bid)%nat →
  zget bid (Z.of_nat i) ≤ 0 →
  task_rows (Ptr ti 0) (Ptr tb 0) bins padded_bins (Z.of_nat i) w =
    (Ok (zget idx (Z.of_nat i), Z.of_nat i),
     World (mem w)
       (Rd (Ptr tb 0 +ₚ Z.of_nat i) :: Rd (Ptr ti 0 +ₚ Z.of_nat i) :: log w)).
Proof.
  intros Hi Hb Hli Hlb Hk. unfold task_rows.
  erewrite bind_run; [|by apply (load_int_vec ti idx); [|lia]].
  erewrite bind_run; [|by apply (load_int_vec tb bid); [|lia]].
  rewrite bool_decide_eq_false_2 by lia.
  erewrite bind_run; [|done]. erewrite bind_run; [|done]. done.
Qed.

Lemma first_bin_reads_no_bounds_witness :
  task_rows (Ptr 1 0) (Ptr 2 0) (Ptr 77 0) (Ptr 78 (-3)) (Z.of_nat 1)
    (World scenario_mem []) =
    (Ok (zget [0; 1; 2; 3] (Z.of_nat 1), Z.of_nat 1),
     World scenario_mem
       [Rd (Ptr 2 0 +ₚ Z.of_nat 1); Rd (Ptr 1 0 +ₚ Z.of_nat 1)]).
Proof.
  apply (first_bin_reads_no_bounds (World scenario_mem []) 1 2
           [0; 1; 2; 3] [0; 0; 1; 1] 1 (Ptr 77 0) (Ptr 78 (-3))).
  - reflexivity.
  - reflexivity.
  - cbn. lia.
  - cbn. lia.
  - vm_compute. done.
Defined.
(** ** A single group *)



